(** * The agent-usage tool server: parsers, quota aggregation, dispatch, transport

    A shallow embedding of the TypeScript sources under
    [mcp/agent-usage-mcp/src] (and, where the two differ, of the single-file
    [mcp/agent-usage-mcp.js]), with the properties of its specification.

    Conventions of the embedding.
    - A value produced by [JSON.parse] is a [JSON] term.  The properties of an
      object are listed in enumeration order.
    - JavaScript numbers are exact rationals ([Q]); the result of
      [Math.round] is an integer ([Z]).  Binary64 rounding, infinities and
      [NaN] are only present where the code tests for them ([number]).
    - Strings are [string]s of 8-bit characters; [toLowerCase] acts on the
      letters A to Z.
    - A function that can throw returns a [completion]; an awaited promise is
      [Normal] when fulfilled and [Throw] when rejected.
    - The answers of the remote services are an argument ([Upstream]): every
      theorem holds for all answers. *)

From Stdlib Require Import ZArith QArith Qround Qreduction.
From Stdlib Require Import Ascii String List DecimalString DecimalNat.
From stdpp Require Import base option list gmap strings.

Set Warnings "-register-all".
Local Open Scope string_scope.
Local Open Scope list_scope.

(** ** JSON values and completions *)

Inductive JSON : Type :=
| JNull
| JBool (b : bool)
| JNum (n : Q)
| JStr (s : string)
| JArr (items : list JSON)
| JObj (props : list (string * JSON)).

(** What a [throw] carries.  Messages that embed a rendered number or value
    are kept structured. *)
Inductive error : Type :=
| TypeError_null (prop : string)
  (** reading property [prop] of [null] or [undefined] *)
| Error (message : string)
| InvalidHours (hours : JSON)
  (** [Invalid hours value: <hours>. Must be a positive number.] *)
| AccountNotFound (identifier : string)
  (** [Account not found: <identifier>] *)
| IndexOutOfRange (index : Q) (length : nat)
  (** [Account index <index> out of range (0-<length - 1>)] *)
| AccountAtIndexNotFound (index : Q)
  (** [Account at index <index> not found] *)
| UnknownTool (name : option JSON).
  (** [Unknown tool: <name>] *)

Inductive completion (A : Type) : Type :=
| Normal (a : A)
| Throw (e : error).
Arguments Normal {A} a.
Arguments Throw {A} e.

#[global] Instance completion_ret : MRet completion := fun A a => Normal a.
#[global] Instance completion_bind : MBind completion := fun A B f m =>
  match m with
  | Normal a => f a
  | Throw e => Throw e
  end.

Definition returns {A} (m : completion A) : bool :=
  match m with Normal _ => true | Throw _ => false end.

Definition is_null (v : JSON) : bool :=
  match v with JNull => true | _ => false end.

(** [typeof v === "object"]: true of [null], arrays and objects. *)
Definition typeof_object (v : JSON) : bool :=
  match v with
  | JNull | JArr _ | JObj _ => true
  | _ => false
  end.

Fixpoint own_property (props : list (string * JSON)) (p : string) : option JSON :=
  match props with
  | [] => None
  | (k, v) :: rest => if String.eqb k p then Some v else own_property rest p
  end.

(** [v.p] for a property name [p] that is neither an array index, nor
    [length], nor a name inherited from a built-in prototype (all the names
    the sources read are such).  [None] is [undefined]. *)
Definition get_prop (v : JSON) (p : string) : completion (option JSON) :=
  match v with
  | JNull => Throw (TypeError_null p)
  | JObj props => Normal (own_property props p)
  | _ => Normal None
  end.

(** [v.p] where [v] may itself be [undefined]. *)
Definition get_prop_opt (v : option JSON) (p : string) : completion (option JSON) :=
  match v with
  | None => Throw (TypeError_null p)
  | Some v => get_prop v p
  end.

(** [p in v] for an object-typed, non-null [v] and such a name [p]. *)
Definition has_prop (v : JSON) (p : string) : bool :=
  match v with
  | JObj props => bool_decide (is_Some (own_property props p))
  | _ => false
  end.

Definition index_key (i : nat) : string := NilZero.string_of_uint (Nat.to_uint i).

Fixpoint index_entries (i : nat) (items : list JSON) : list (string * JSON) :=
  match items with
  | [] => []
  | x :: rest => (index_key i, x) :: index_entries (S i) rest
  end.

(** [Object.entries(v)] for an object-typed, non-null [v]. *)
Definition Object_entries (v : JSON) : list (string * JSON) :=
  match v with
  | JObj props => props
  | JArr items => index_entries 0 items
  | _ => []
  end.

(** [Math.round]: the nearest integer, ties towards plus infinity. *)
Definition Math_round (x : Q) : Z := Qfloor (x + (1 # 2)).

(** ** Payload parsers (api/antigravity.ts) *)

Module Model.
Record t : Type := mk {
  model : string;
  remaining_fraction : option Q;
  remaining_pct : option Z;
  reset_time : option string }.
End Model.

Module Bucket.
Record t : Type := mk {
  model : string;
  token_type : option string;
  remaining_fraction : option Q;
  remaining_pct : option Z;
  remaining_amount : option string;
  reset_time : option string }.
End Bucket.

Definition as_string (v : option JSON) : option string :=
  match v with Some (JStr s) => Some s | _ => None end.

Definition as_number (v : option JSON) : option Q :=
  match v with Some (JNum n) => Some n | _ => None end.

Definition createAntigravityModelEntry (name : string) (infoObj : JSON)
  : completion Model.t :=
  let entry := Model.mk name None None None in
  quotaInfo ← get_prop infoObj "quotaInfo";
  match quotaInfo with
  | None => Normal entry
  | Some quotaInfo =>
      if negb (typeof_object quotaInfo) then Normal entry
      else
        remainingFraction ← get_prop quotaInfo "remainingFraction";
        let entry :=
          match as_number remainingFraction with
          | Some f =>
              Model.mk (Model.model entry) (Some f)
                (Some (Math_round (f * 100%Q))) (Model.reset_time entry)
          | None => entry
          end in
        resetTime ← get_prop quotaInfo "resetTime";
        let entry :=
          match as_string resetTime with
          | Some s =>
              Model.mk (Model.model entry) (Model.remaining_fraction entry)
                (Model.remaining_pct entry) (Some s)
          | None => entry
          end in
        Normal entry
  end.

(** The [for ... of Object.entries(dataObj.models)] loop, pushing onto [models]. *)
Fixpoint models_loop (entries : list (string * JSON)) (models : list Model.t)
  : completion (list Model.t) :=
  match entries with
  | [] => Normal models
  | (name, info) :: rest =>
      entry ← createAntigravityModelEntry name info;
      models_loop rest (models ++ [entry])
  end.

Definition parseAntigravityModels (data : JSON) : completion (list Model.t) :=
  if negb (typeof_object data) || is_null data || negb (has_prop data "models")
  then Normal []
  else
    models ← get_prop data "models";
    match models with
    | Some models =>
        if negb (typeof_object models) || is_null models then Normal []
        else models_loop (Object_entries models) []
    | None => Normal []
    end.

Definition bucket_entry (bucket : JSON) : completion Bucket.t :=
  modelId ← get_prop bucket "modelId";
  tokenType ← get_prop bucket "tokenType";
  remainingFraction ← get_prop bucket "remainingFraction";
  remainingAmount ← get_prop bucket "remainingAmount";
  resetTime ← get_prop bucket "resetTime";
  Normal (Bucket.mk
            (default "unknown" (as_string modelId))
            (as_string tokenType)
            (as_number remainingFraction)
            (match as_number remainingFraction with
             | Some f => Some (Math_round (f * 100%Q))
             | None => None
             end)
            (as_string remainingAmount)
            (as_string resetTime)).

(** The [for (const b of dataObj.buckets)] loop. *)
Fixpoint buckets_loop (items : list JSON) (buckets : list Bucket.t)
  : completion (list Bucket.t) :=
  match items with
  | [] => Normal buckets
  | b :: rest =>
      if typeof_object b && negb (is_null b)
      then entry ← bucket_entry b; buckets_loop rest (buckets ++ [entry])
      else buckets_loop rest buckets
  end.

Definition parseGeminiCliQuota (data : JSON) : completion (list Bucket.t) :=
  if typeof_object data && negb (is_null data) && has_prop data "buckets"
  then
    buckets ← get_prop data "buckets";
    match buckets with
    | Some (JArr items) => buckets_loop items []
    | _ => Normal []
    end
  else Normal [].

(** ** The per-account pipeline (api/antigravity.ts) *)

Module Account.
(** [None] is an absent field.  The accounts-file schema of the modular
    server always yields [Some] for [email] and [refreshToken]. *)
Record t : Type := mk {
  email : option string;
  refreshToken : option string;
  projectId : option string;
  enabled : option bool }.
End Account.

Module Result.
Record t : Type := mk {
  account_index : nat;
  email : string;
  enabled : bool;
  projectId : option string;
  antigravity_models : list Model.t;
  gemini_cli_quota : list Bucket.t;
  errors : list string }.
End Result.

(** A settled promise of an outbound call; [Rejected] carries
    [err instanceof Error ? err.message : String(err)]. *)
Inductive settled (A : Type) : Type :=
| Fulfilled (value : A)
| Rejected (message : string).
Arguments Fulfilled {A} value.
Arguments Rejected {A} message.

(** What the remote services answer to one account's calls. *)
Record Upstream : Type := {
  refreshAccessToken : string -> settled string;
  fetchAntigravityModels : string -> option string -> settled JSON;
  fetchGeminiCliQuota : string -> option string -> settled JSON }.

(** The outbound calls, in the order they are started. *)
Inductive call : Type :=
| CallRefresh (refreshToken : string)
| CallModels (accessToken : string) (projectId : option string)
| CallQuota (accessToken : string) (projectId : option string).

(** [x || fallback] on a possibly absent string. *)
Definition truthy_string (x : option string) : option string :=
  match x with
  | Some s => if String.eqb s EmptyString then None else Some s
  | None => None
  end.

Definition account_label (index : nat) : string :=
  "account_" +:+ index_key index.

Definition getAntigravityAccountQuota (up : Upstream) (account : Account.t)
    (index : nat) : list call * completion Result.t :=
  let result :=
    Result.mk index
      (default (account_label index) (truthy_string (Account.email account)))
      (negb (bool_decide (Account.enabled account = Some false)))
      (truthy_string (Account.projectId account))
      [] [] [] in
  if negb (Result.enabled result) then
    ([], Normal (Result.mk index (Result.email result) (Result.enabled result)
                   (Result.projectId result) [] [] ["Account is disabled"]))
  else
    match truthy_string (Account.refreshToken account) with
    | None =>
        ([], Normal (Result.mk index (Result.email result)
                       (Result.enabled result) (Result.projectId result) [] []
                       ["No refresh token stored for this account"]))
    | Some refreshToken =>
        match refreshAccessToken up refreshToken with
        | Rejected message =>
            ([CallRefresh refreshToken],
             Normal (Result.mk index (Result.email result)
                       (Result.enabled result) (Result.projectId result) [] []
                       ["Token refresh failed: " +:+ message]))
        | Fulfilled accessToken =>
            let agResult :=
              fetchAntigravityModels up accessToken (Account.projectId account) in
            let gcResult :=
              fetchGeminiCliQuota up accessToken (Account.projectId account) in
            ([CallRefresh refreshToken;
              CallModels accessToken (Account.projectId account);
              CallQuota accessToken (Account.projectId account)],
             '(antigravity_models, errors) ←
               match agResult with
               | Fulfilled value =>
                   models ← parseAntigravityModels value; Normal (models, [])
               | Rejected message =>
                   Normal ([], ["Antigravity models: " +:+ message])
               end;
             '(gemini_cli_quota, errors) ←
               match gcResult with
               | Fulfilled value =>
                   buckets ← parseGeminiCliQuota value; Normal (buckets, errors)
               | Rejected message =>
                   Normal ([], errors ++ ["Gemini CLI quota: " +:+ message])
               end;
             Normal (Result.mk index (Result.email result)
                       (Result.enabled result) (Result.projectId result)
                       antigravity_models gemini_cli_quota errors))
        end
    end.

(** ** Aggregation over all accounts *)

Module Summary.
Record t : Type := mk {
  best_remaining_pct : Z;
  accounts_available : nat }.
End Summary.

(** The names every plain object inherits from [Object.prototype]. *)
Definition Object_prototype_names : list string :=
  ["constructor"; "hasOwnProperty"; "isPrototypeOf"; "propertyIsEnumerable";
   "toLocaleString"; "toString"; "valueOf"; "__proto__";
   "__defineGetter__"; "__defineSetter__"; "__lookupGetter__";
   "__lookupSetter__"].

(** [key in modelSummary], for [modelSummary] created by [{}]: an own
    property or an inherited one.  (The single-file server tests
    [!modelSummary[key]], which is false in the same cases: an entry and an
    inherited built-in are both truthy.) *)
Definition key_in (key : string) (modelSummary : gmap string Summary.t) : bool :=
  bool_decide (is_Some (modelSummary !! key))
  || bool_decide (key ∈ Object_prototype_names).

(** One iteration of either inner loop of the summary pass.  When [key] is
    inherited, [modelSummary[key]] is a built-in object: it is not
    [undefined], the two assignments land on it, and the own properties of
    [modelSummary] stay as they are. *)
Definition summary_step (key : string) (remaining_pct : option Z)
    (modelSummary : gmap string Summary.t) : gmap string Summary.t :=
  let modelSummary :=
    if negb (key_in key modelSummary)
    then <[key := Summary.mk (-1) 0]> modelSummary
    else modelSummary in
  match modelSummary !! key, remaining_pct with
  | Some entry, Some pct =>
      if (0 <? pct)%Z then
        <[key := Summary.mk (Z.max (Summary.best_remaining_pct entry) pct)
                   (S (Summary.accounts_available entry))]> modelSummary
      else modelSummary
  | _, _ => modelSummary
  end.

Definition gemini_key (model : string) : string := "gemini-cli:" +:+ model.

Definition summary_account (modelSummary : gmap string Summary.t)
    (acct : Result.t) : gmap string Summary.t :=
  if negb (Result.enabled acct) then modelSummary
  else
    let modelSummary :=
      foldl (fun s m => summary_step (Model.model m) (Model.remaining_pct m) s)
        modelSummary (Result.antigravity_models acct) in
    foldl (fun s b =>
             summary_step (gemini_key (Bucket.model b)) (Bucket.remaining_pct b) s)
      modelSummary (Result.gemini_cli_quota acct).

Definition build_summary (results : list Result.t) : gmap string Summary.t :=
  foldl summary_account ∅ results.

Module All.
Record t : Type := mk {
  total_accounts : nat;
  enabled_accounts : nat;
  accounts : list Result.t;
  summary : gmap string Summary.t }.
End All.

(** [loadAccounts], once the accounts file has been read and validated. *)
Definition loadAccounts (file : list Account.t) : completion (list Account.t) :=
  if bool_decide (length file = 0) then Throw (Error "No Antigravity accounts configured")
  else Normal file.

(** [accounts.map((acc, i) => getAntigravityAccountQuota(acc, i))], the
    answers to account [i] being [net i]. *)
Fixpoint map_pipelines (net : nat -> Upstream) (i : nat) (accounts : list Account.t)
  : list (list call * completion Result.t) :=
  match accounts with
  | [] => []
  | acc :: rest =>
      getAntigravityAccountQuota (net i) acc i :: map_pipelines net (S i) rest
  end.

(** [Promise.all]: every result when all are fulfilled, else a rejection
    (here the one of the lowest index). *)
Fixpoint Promise_all {A} (ps : list (completion A)) : completion (list A) :=
  match ps with
  | [] => Normal []
  | p :: rest => a ← p; l ← Promise_all rest; Normal (a :: l)
  end.

Definition getAntigravityQuotaAll (net : nat -> Upstream) (file : list Account.t)
  : completion All.t :=
  accounts ← loadAccounts file;
  results ← Promise_all (snd <$> map_pipelines net 0 accounts);
  let modelSummary := build_summary results in
  Normal (All.mk (length accounts)
            (length (filter (fun a => Account.enabled a ≠ Some false) accounts))
            results modelSummary).

(** ** A single account by identifier *)

Inductive identifier : Type :=
| IdNumber (n : Q)
| IdString (s : string).

Definition is_digit (c : ascii) : bool :=
  (48 <=? nat_of_ascii c)%nat && (nat_of_ascii c <=? 57)%nat.

Fixpoint all_digits (s : string) : bool :=
  match s with
  | EmptyString => true
  | String c rest => is_digit c && all_digits rest
  end.

(** [/^\d+$/.test(s)] *)
Definition NUMERIC_STRING_REGEX_test (s : string) : bool :=
  negb (String.eqb s EmptyString) && all_digits s.

Fixpoint digits_value (s : string) (acc : Z) : Z :=
  match s with
  | EmptyString => acc
  | String c rest => digits_value rest (10 * acc + (Z.of_nat (nat_of_ascii c) - 48))
  end.

(** [Number(s)] for a string of decimal digits. *)
Definition Number_of_digits (s : string) : Z := digits_value s 0.

Definition lower_char (c : ascii) : ascii :=
  let n := nat_of_ascii c in
  if (65 <=? n)%nat && (n <=? 90)%nat then ascii_of_nat (n + 32) else c.

Fixpoint toLowerCase (s : string) : string :=
  match s with
  | EmptyString => EmptyString
  | String c rest => String (lower_char c) (toLowerCase rest)
  end.

(** [Array.prototype.findIndex]: the first position satisfying [f], else [-1]. *)
Fixpoint findIndex {A} (f : A -> bool) (l : list A) : Z :=
  match l with
  | [] => -1
  | x :: rest =>
      if f x then 0
      else let r := findIndex f rest in if (r =? -1)%Z then -1 else (r + 1)%Z
  end.

(** [a.email && a.email.toLowerCase() === String(identifier).toLowerCase()] *)
Definition email_matches (identifier : string) (a : Account.t) : bool :=
  match truthy_string (Account.email a) with
  | Some email => String.eqb (toLowerCase email) (toLowerCase identifier)
  | None => false
  end.

Definition resolve_index (accounts : list Account.t) (identifier : identifier)
  : completion Q :=
  match identifier with
  | IdNumber n => Normal n
  | IdString s =>
      if NUMERIC_STRING_REGEX_test s then Normal (inject_Z (Number_of_digits s))
      else
        let index := findIndex (email_matches s) accounts in
        if (index =? -1)%Z then Throw (AccountNotFound s)
        else Normal (inject_Z index)
  end.

(** [accounts[index]]: defined at integral positions below the length. *)
Definition array_get {A} (l : list A) (index : Q) : option (nat * A) :=
  let r := Qred index in
  if (Zpos (Qden r) =? 1)%Z && (0 <=? Qnum r)%Z
  then a ← l !! Z.to_nat (Qnum r); Some (Z.to_nat (Qnum r), a)
  else None.

Definition Qltb (x y : Q) : bool := negb (Qle_bool y x).

Definition getAntigravityQuotaSingle (up : Upstream) (file : list Account.t)
    (identifier : identifier) : list call * completion Result.t :=
  match loadAccounts file with
  | Throw e => ([], Throw e)
  | Normal accounts =>
      match resolve_index accounts identifier with
      | Throw e => ([], Throw e)
      | Normal index =>
          if Qltb index 0%Q
             || Qle_bool (inject_Z (Z.of_nat (length accounts))) index
          then ([], Throw (IndexOutOfRange index (length accounts)))
          else
            match array_get accounts index with
            | None => ([], Throw (AccountAtIndexNotFound index))
            | Some (i, account) => getAntigravityAccountQuota up account i
            end
      end
  end.

(** ** Validation of [hours] (utils/validation.ts, tools/zai.ts) *)

Inductive number : Type :=
| Finite (q : Q)
| NaN
| Infinity
| NegInfinity.

(** The coercions of the language that the sources rely on but do not
    define: [Number] on a string, and [String] on an array or object. *)
Class Runtime : Type := {
  StringToNumber : string -> number;
  ToString : JSON -> string }.

Section Hours.
Context `{Runtime}.

(** [Number(v)]; [None] is [undefined]. *)
Definition Number (v : option JSON) : number :=
  match v with
  | None => NaN
  | Some JNull => Finite 0%Q
  | Some (JBool b) => Finite (if b then 1%Q else 0%Q)
  | Some (JNum n) => Finite n
  | Some (JStr s) => StringToNumber s
  | Some v => StringToNumber (ToString v)
  end.

(** [Number.isFinite(parsed) && parsed > 0], with the finite value. *)
Definition finite_positive (parsed : number) : option Q :=
  match parsed with
  | Finite q => if Qltb 0%Q q then Some q else None
  | _ => None
  end.

(** The modular server. *)
Definition validateHours (hours : option JSON) : completion Q :=
  match hours with
  | None => Normal 24%Q
  | Some v =>
      match finite_positive (Number (Some v)) with
      | None => Throw (InvalidHours v)
      | Some parsed => Normal parsed
      end
  end.

(** The single-file server. *)
Definition validateHours_js (hours : option JSON) : Q :=
  match finite_positive (Number hours) with
  | Some parsed => parsed
  | None => 24%Q
  end.

(** The usage-metering client: one outbound call each. *)
Record UsageClient : Type := {
  fetchQuota : settled JSON;
  fetchModelUsage : Q -> settled JSON;
  fetchToolUsage : Q -> settled JSON }.

Inductive usage_call : Type :=
| CallFetchQuota
| CallFetchModelUsage (hours : Q)
| CallFetchToolUsage (hours : Q).

Definition awaited {A} (p : settled A) : completion A :=
  match p with
  | Fulfilled value => Normal value
  | Rejected message => Throw (Error message)
  end.

Variable client : UsageClient.

Definition getQuota : list usage_call * completion JSON :=
  ([CallFetchQuota], awaited (fetchQuota client)).

Definition getModelUsage (hours : option JSON) : list usage_call * completion JSON :=
  match validateHours hours with
  | Throw e => ([], Throw e)
  | Normal h => ([CallFetchModelUsage h], awaited (fetchModelUsage client h))
  end.

Definition getToolUsage (hours : option JSON) : list usage_call * completion JSON :=
  match validateHours hours with
  | Throw e => ([], Throw e)
  | Normal h => ([CallFetchToolUsage h], awaited (fetchToolUsage client h))
  end.

Definition getFullUsage (hours : option JSON) : list usage_call * completion JSON :=
  match validateHours hours with
  | Throw e => ([], Throw e)
  | Normal validHours =>
      let q := getQuota in
      let m := getModelUsage (Some (JNum validHours)) in
      let t := getToolUsage (Some (JNum validHours)) in
      (fst q ++ fst m ++ fst t,
       quota ← snd q; model_usage ← snd m; tool_usage ← snd t;
       Normal (JObj [("quota", quota); ("model_usage", model_usage);
                     ("tool_usage", tool_usage)]))
  end.

(** The single-file server's [tools/call] arm for [get_model_usage]:
    [getModelUsage(validateHours(args.hours))]. *)
Definition js_get_model_usage (hours : option JSON)
  : list usage_call * completion JSON :=
  let h := validateHours_js hours in
  ([CallFetchModelUsage h], awaited (fetchModelUsage client h)).
End Hours.

(** ** The protocol dispatcher (server.ts) *)

Inductive payload : Type :=
| InitializeResult
| EmptyResult
| ToolsList
| ToolResult (result : JSON).

Inductive failure : Type :=
| ParseError
| MethodNotFound (method : option JSON)
| Thrown (e : error).

Inductive body : Type :=
| Result_ (result : payload)
| Error_ (code : Z) (cause : failure).

Module Envelope.
Record t : Type := mk { id : JSON; content : body }.
End Envelope.

Definition makeResponse (id : JSON) (result : payload) : Envelope.t :=
  Envelope.mk id (Result_ result).

Definition makeError (id : JSON) (code : Z) (cause : failure) : Envelope.t :=
  Envelope.mk id (Error_ code cause).

Definition is_method (method : option JSON) (name : string) : bool :=
  match method with
  | Some (JStr s) => String.eqb s name
  | _ => false
  end.

Section Dispatcher.
(** [executeTool(params.name, params.arguments ?? {})], awaited. *)
Variable executeTool : option JSON -> JSON -> completion JSON.

Definition dispatch (msg id : JSON) : completion Envelope.t :=
  method ← get_prop msg "method";
  if is_method method "initialize" then Normal (makeResponse id InitializeResult)
  else if is_method method "ping" then Normal (makeResponse id EmptyResult)
  else if is_method method "tools/list" then Normal (makeResponse id ToolsList)
  else if is_method method "tools/call" then
    params ← get_prop msg "params";
    name ← get_prop_opt params "name";
    arguments ← get_prop_opt params "arguments";
    let args :=
      match arguments with
      | None | Some JNull => JObj []
      | Some a => a
      end in
    result ← executeTool name args;
    Normal (makeResponse id (ToolResult result))
  else Normal (makeError id (-32601) (MethodNotFound method)).

Definition handleMessage (msg : JSON) : completion (option Envelope.t) :=
  id ← get_prop msg "id";
  match id with
  | None => Normal None
  | Some id =>
      match dispatch msg id with
      | Normal response => Normal (Some response)
      | Throw err => Normal (Some (makeError id (-32000) (Thrown err)))
      end
  end.

(** ** The transport loop (index.ts) *)

Inductive line : Type :=
| Blank
| Malformed
| Parsed (msg : JSON).

Inductive event : Type :=
| OnLine (l : line)
| OnSettled (k : nat)
  (** the [k]-th pending [handleMessage] promise settles *)
| OnClose.

Record State : Type := {
  pendingRequests : nat;
  stdinClosed : bool;
  exited : bool;
  stdout : list Envelope.t;
  awaiting : list JSON }.

Definition initial : State :=
  {| pendingRequests := 0; stdinClosed := false; exited := false;
     stdout := []; awaiting := [] |}.

Definition sendMessage (data : Envelope.t) (s : State) : State :=
  {| pendingRequests := pendingRequests s; stdinClosed := stdinClosed s;
     exited := exited s; stdout := stdout s ++ [data];
     awaiting := awaiting s |}.

Definition checkExit (s : State) : State :=
  if stdinClosed s && (pendingRequests s =? 0)%nat
  then {| pendingRequests := pendingRequests s; stdinClosed := stdinClosed s;
          exited := true; stdout := stdout s; awaiting := awaiting s |}
  else s.

Definition on_line (l : line) (s : State) : State :=
  match l with
  | Blank => s
  | Malformed => sendMessage (makeError JNull (-32700) ParseError) s
  | Parsed msg =>
      {| pendingRequests := S (pendingRequests s); stdinClosed := stdinClosed s;
         exited := exited s; stdout := stdout s;
         awaiting := awaiting s ++ [msg] |}
  end.

(** The continuation after [await handleMessage(msg)], with its [finally]. *)
Definition on_settled (k : nat) (s : State) : State :=
  match awaiting s !! k with
  | None => s
  | Some msg =>
      let s :=
        match handleMessage msg with
        | Normal (Some response) => sendMessage response s
        | _ => s
        end in
      checkExit
        {| pendingRequests := pred (pendingRequests s);
           stdinClosed := stdinClosed s; exited := exited s;
           stdout := stdout s; awaiting := delete k (awaiting s) |}
  end.

Definition on_close (s : State) : State :=
  checkExit
    {| pendingRequests := pendingRequests s; stdinClosed := true;
       exited := exited s; stdout := stdout s; awaiting := awaiting s |}.

(** Nothing runs once the process has exited. *)
Definition step (s : State) (ev : event) : State :=
  if exited s then s
  else
    match ev with
    | OnLine l => on_line l s
    | OnSettled k => on_settled k s
    | OnClose => on_close s
    end.

Definition run (evs : list event) : State := foldl step initial evs.

(** The exit flag is the exit condition, and the counter counts the
    pending calls. *)
Definition consistent (s : State) : Prop :=
  exited s = stdinClosed s && (pendingRequests s =? 0)%nat /\
  pendingRequests s = length (awaiting s).

(** The messages handed to the dispatcher: the parsed lines that arrive
    while the process is alive. *)
Definition accepts (s : State) (ev : event) : list JSON :=
  match ev with
  | OnLine (Parsed msg) => if exited s then [] else [msg]
  | _ => []
  end.

Fixpoint accepted_from (s : State) (evs : list event) : list JSON :=
  match evs with
  | [] => []
  | ev :: rest => accepts s ev ++ accepted_from (step s ev) rest
  end.

Definition accepted (evs : list event) : list JSON := accepted_from initial evs.

(** The response to [msg], if it has one, is on the output. *)
Definition written (msg : JSON) (s : State) : Prop :=
  forall response,
    handleMessage msg = Normal (Some response) -> response ∈ stdout s.

Definition tracked (msg : JSON) (s : State) : Prop :=
  msg ∈ awaiting s \/ written msg s.
End Dispatcher.

(** ** The rest of the modular server, and the single-file dispatcher *)

(** The outbound calls of one [getAll]: those of every account's pipeline
    (all pipelines are started, whatever the others do). *)
Definition getAntigravityQuotaAll_calls (net : nat -> Upstream)
    (file : list Account.t) : list call :=
  match loadAccounts file with
  | Throw _ => []
  | Normal accounts => mjoin (fst <$> map_pipelines net 0 accounts)
  end.

(** The items of [data.buckets] that [parseGeminiCliQuota] keeps. *)
Definition kept_buckets (data : JSON) : list JSON :=
  match data with
  | JObj props =>
      match own_property props "buckets" with
      | Some (JArr items) =>
          filter (fun b => typeof_object b && negb (is_null b) = true) items
      | _ => []
      end
  | _ => []
  end.

(** [bucket.modelId], when it is a string, else ["unknown"]. *)
Definition bucket_model (b : JSON) : string :=
  match b with
  | JObj props => default "unknown" (as_string (own_property props "modelId"))
  | _ => "unknown"
  end.

(** *** The tool registry (tools/registry.ts) *)





Section Registry.
(** The six handlers of tools/zai.ts and tools/antigravity.ts, each taking
    the argument the registry passes it. *)
Context {R : Type}.
Variable tool_get_usage : option JSON -> completion R.
Variable tool_get_quota : completion R.
Variable tool_get_model_usage : option JSON -> completion R.
Variable tool_get_tool_usage : option JSON -> completion R.
Variable tool_get_antigravity_quota : completion R.
Variable tool_get_antigravity_account_quota : option JSON -> completion R.

Definition executeTool (name : option JSON) (args : JSON) : completion R :=
  if is_method name "get_usage" then
    hours ← get_prop args "hours"; tool_get_usage hours
  else if is_method name "get_quota" then tool_get_quota
  else if is_method name "get_model_usage" then
    hours ← get_prop args "hours"; tool_get_model_usage hours
  else if is_method name "get_tool_usage" then
    hours ← get_prop args "hours"; tool_get_tool_usage hours
  else if is_method name "get_antigravity_quota" then tool_get_antigravity_quota
  else if is_method name "get_antigravity_account_quota" then
    account ← get_prop args "account"; tool_get_antigravity_account_quota account
  else Throw (UnknownTool name).
End Registry.

(** *** The single-file dispatcher (agent-usage-mcp.js) *)


Section SingleFile.
Context `{Runtime}.
(** The tool implementations of the single-file server, awaited; the usage
    ones take the validated hours. *)
Variable js_getFullUsage : Q -> completion JSON.
Variable js_getQuota : completion JSON.
Variable js_getModelUsage : Q -> completion JSON.
Variable js_getToolUsage : Q -> completion JSON.
Variable js_getAntigravityQuotaAll : completion JSON.
Variable js_getAntigravityQuotaSingle : option JSON -> completion JSON.


End SingleFile.

(** *** Reshaping of the quota answer (api/zai.ts) *)

Module Limit.
(** One element of [data.limits], as the response schema allows it. *)
Record t : Type := mk {
  type : string;
  percentage : option Q;
  used : option Q;
  total : option Q }.
End Limit.

Module QuotaLimit.
Record t : Type := mk {
  type : string;
  percentage : Q;
  used : option Q;
  total : option Q }.
End QuotaLimit.

Definition mapQuotaType (limitType : string) : string :=
  if String.eqb limitType "TOKENS_LIMIT" then "Token Usage (5h window)"
  else if String.eqb limitType "TIME_LIMIT" then "MCP Usage (Monthly)"
  else limitType.

(** The [limits] of [fetchQuota]'s result, from the validated response:
    [data] is [response.data?.limits]. *)
Definition quota_limits (data : option (list Limit.t)) : list QuotaLimit.t :=
  (fun limit =>
     QuotaLimit.mk (mapQuotaType (Limit.type limit))
       (default 0%Q (Limit.percentage limit))
       (Limit.used limit) (Limit.total limit))
  <$> default [] data.

(** ** Vocabulary of the properties *)

(** The percentage mirrors the fraction: it is the rounded fraction when
    there is one, and absent otherwise. *)
Definition mirrored (fraction : option Q) (pct : option Z) : Prop :=
  pct = (fun f => Math_round (f * 100%Q)) <$> fraction.

(** An entry of the models mapping on which [createAntigravityModelEntry]
    does not throw: it is not [null], and neither is its [quotaInfo]. *)
Definition entry_readable (info : JSON) : bool :=
  match info with
  | JNull => false
  | JObj props =>
      match own_property props "quotaInfo" with
      | Some JNull => false
      | _ => true
      end
  | _ => true
  end.

Definition sample_models : JSON :=
  JObj [("models",
         JObj [("gemini-3-pro",
                JObj [("quotaInfo",
                       JObj [("remainingFraction", JNum (2 # 5));
                             ("resetTime", JStr "2026-01-01T00:00:00Z")])]);
               ("claude-sonnet", JObj [])])].

Definition sample_buckets : JSON :=
  JObj [("buckets",
         JArr [JObj [("modelId", JStr "gemini-2.5-pro");
                     ("remainingFraction", JNum (7 # 10))];
               JStr "stray"; JNull])].

(** The fields every result starts from. *)
Definition result_header (account : Account.t) (index : nat)
    (models : list Model.t) (buckets : list Bucket.t) (errors : list string)
  : Result.t :=
  Result.mk index
    (default (account_label index) (truthy_string (Account.email account)))
    (negb (bool_decide (Account.enabled account = Some false)))
    (truthy_string (Account.projectId account))
    models buckets errors.

(** What each settled quota fetch contributes: its list and its error. *)
Definition models_field (agResult : settled JSON) : completion (list Model.t) :=
  match agResult with
  | Fulfilled value => parseAntigravityModels value
  | Rejected _ => Normal []
  end.

Definition buckets_field (gcResult : settled JSON) : completion (list Bucket.t) :=
  match gcResult with
  | Fulfilled value => parseGeminiCliQuota value
  | Rejected _ => Normal []
  end.

Definition fetch_error {A} (label : string) (r : settled A) : list string :=
  match r with
  | Fulfilled _ => []
  | Rejected message => [label +:+ message]
  end.

(** An account whose models payload holds a [null] entry while its quota
    fetch times out. *)
Definition upstream_null_entry : Upstream :=
  {| refreshAccessToken := fun _ => Fulfilled "ya29.token";
     fetchAntigravityModels := fun _ _ =>
       Fulfilled (JObj [("models", JObj [("gemini-3-pro", JNull)])]);
     fetchGeminiCliQuota := fun _ _ => Rejected "Request timed out" |}.

Definition upstream_healthy : Upstream :=
  {| refreshAccessToken := fun _ => Fulfilled "ya29.token";
     fetchAntigravityModels := fun _ _ => Fulfilled sample_models;
     fetchGeminiCliQuota := fun _ _ => Fulfilled sample_buckets |}.

Definition alice : Account.t :=
  Account.mk (Some "alice@example.com") (Some "1//refresh-a") None None.

Definition bob : Account.t :=
  Account.mk (Some "Bob@Example.com") (Some "1//refresh-b") (Some "proj-b") (Some true).

(** What the summary pass looks at, in order: the (key, percentage) pairs of
    the enabled accounts. *)
Definition account_observations (acct : Result.t) : list (string * option Z) :=
  if Result.enabled acct then
    ((fun m => (Model.model m, Model.remaining_pct m))
       <$> Result.antigravity_models acct)
    ++ ((fun b => (gemini_key (Bucket.model b), Bucket.remaining_pct b))
          <$> Result.gemini_cli_quota acct)
  else [].

Definition observations (results : list Result.t) : list (string * option Z) :=
  results ≫= account_observations.

(** The percentages above zero observed for [key]. *)
Definition positive_pct (key : string) (o : string * option Z) : list Z :=
  match o.2 with
  | Some pct => if bool_decide (o.1 = key) && (0 <? pct)%Z then [pct] else []
  | None => []
  end.


Definition summary_steps (os : list (string * option Z))
    (s : gmap string Summary.t) : gmap string Summary.t :=
  foldl (fun s o => summary_step o.1 o.2 s) s os.

(** The entry after one step on the entry's own key. *)
Definition raised (entry : Summary.t) (pcts : list Z) : Summary.t :=
  Summary.mk (foldl Z.max (Summary.best_remaining_pct entry) pcts)
    (Summary.accounts_available entry + length pcts).



(** An account without email, with an empty project, switched off. *)
Definition anonymous_disabled : Account.t :=
  Account.mk None (Some "1//refresh-c") (Some EmptyString) (Some false).

Definition carol_disabled : Account.t :=
  Account.mk (Some "carol@example.com") (Some "1//refresh-c") None (Some false).

(** A registry without tools, to run the dispatcher on concrete messages. *)
Definition no_tools (name : option JSON) (args : JSON) : completion JSON :=
  Throw (UnknownTool name).

Definition ping_with_null_id : JSON :=
  JObj [("jsonrpc", JStr "2.0"); ("id", JNull); ("method", JStr "ping")].

Definition ping_notification : JSON :=
  JObj [("jsonrpc", JStr "2.0"); ("method", JStr "ping")].

Definition call_with_id : JSON :=
  JObj [("jsonrpc", JStr "2.0"); ("id", JNum 2); ("method", JStr "tools/call");
        ("params", JObj [("name", JStr "bogus_tool"); ("arguments", JObj [])])].

Definition upstream_models_down : Upstream :=
  {| refreshAccessToken := fun _ => Fulfilled "ya29.token";
     fetchAntigravityModels := fun _ _ =>
       Rejected "fetchAvailableModels HTTP 503: {}";
     fetchGeminiCliQuota := fun _ _ => Fulfilled sample_buckets |}.

(** The look-back window of a usage call is above zero. *)
Definition positive_window (c : usage_call) : Prop :=
  match c with
  | CallFetchQuota => True
  | CallFetchModelUsage hours | CallFetchToolUsage hours => (0 < hours)%Q
  end.

(** A runtime that coerces no string to a number, to run [validateHours]
    on number arguments. *)
Definition numbers_only : Runtime :=
  {| StringToNumber := fun _ => NaN; ToString := fun _ => EmptyString |}.

Definition usage_down : UsageClient :=
  {| fetchQuota := Fulfilled (JObj []);
     fetchModelUsage := fun _ => Rejected "Request timed out";
     fetchToolUsage := fun _ => Fulfilled (JObj []) |}.




(** The envelope written for a line that is not JSON. *)
Definition parse_error_envelope : Envelope.t :=
  makeError JNull (-32700) ParseError.


Section Output.
Variable tool : option JSON -> JSON -> completion JSON.

(** Where the output comes from, [seen] being the events so far: each
    envelope is the parse-error envelope of a malformed line or the answer
    to a message of a parsed line, and every pending message came on a
    parsed line. *)
Definition output_from (seen : list event) (s : State) : Prop :=
  (forall e, e ∈ stdout s ->
     (e = parse_error_envelope /\ OnLine Malformed ∈ seen) \/
     exists msg,
       OnLine (Parsed msg) ∈ seen /\ handleMessage tool msg = Normal (Some e)) /\
  (forall msg, msg ∈ awaiting s -> OnLine (Parsed msg) ∈ seen).
End Output.

(** * Properties *)

(** ** Payload parsers *)

Lemma bind_Normal {A B} (m : completion A) (f : A -> completion B) (b : B) :
  m ≫= f = Normal b -> exists a, m = Normal a /\ f a = Normal b.
Proof. destruct m as [a|e]; simpl; [eauto | discriminate]. Qed.

Lemma get_prop_not_null (v : JSON) (p : string) :
  is_null v = false -> exists r, get_prop v p = Normal r.
Proof. destruct v; simpl; intros Hn; try discriminate; eauto. Qed.


Lemma createAntigravityModelEntry_fields (name : string) (info : JSON) (e : Model.t) :
  createAntigravityModelEntry name info = Normal e ->
  Model.model e = name /\
  mirrored (Model.remaining_fraction e) (Model.remaining_pct e).
Proof.
  unfold createAntigravityModelEntry, mirrored. intros Hc.
  apply bind_Normal in Hc as ([qi|] & _ & Hc); [|by inversion Hc].
  destruct (negb (typeof_object qi)); [by inversion Hc|].
  apply bind_Normal in Hc as (rf & _ & Hc).
  apply bind_Normal in Hc as (rt & _ & Hc).
  inversion Hc; subst; clear Hc.
  destruct (as_number rf), (as_string rt); simpl; auto.
Qed.



Lemma bucket_entry_total (b : JSON) :
  is_null b = false ->
  exists e, bucket_entry b = Normal e /\
            mirrored (Bucket.remaining_fraction e) (Bucket.remaining_pct e).
Proof.
  intros Hn. unfold bucket_entry.
  destruct (get_prop_not_null b "modelId" Hn) as [r1 ->].
  destruct (get_prop_not_null b "tokenType" Hn) as [r2 ->].
  destruct (get_prop_not_null b "remainingFraction" Hn) as [r3 ->].
  destruct (get_prop_not_null b "remainingAmount" Hn) as [r4 ->].
  destruct (get_prop_not_null b "resetTime" Hn) as [r5 ->].
  simpl. eexists; split; [reflexivity|].
  unfold mirrored; simpl. by destruct (as_number r3).
Qed.


Lemma buckets_loop_total (P : Bucket.t -> Prop) items :
  (forall b e, bucket_entry b = Normal e -> P e) ->
  forall acc, Forall P acc ->
  exists l, buckets_loop items acc = Normal l /\ Forall P l.
Proof.
  intros HP. induction items as [|b rest IH]; simpl; intros acc Hacc; [eauto|].
  destruct (typeof_object b && negb (is_null b)) eqn:Hb; [|by apply IH].
  apply andb_prop in Hb as [_ Hb]. apply negb_true_iff in Hb.
  destruct (bucket_entry_total b Hb) as (e & He & _). rewrite He; simpl.
  apply IH. apply Forall_app; split; [done|].
  constructor; [by eapply HP | constructor].
Qed.

(** The quota-bucket parser returns on every payload. *)
Lemma parseGeminiCliQuota_total (P : Bucket.t -> Prop) (data : JSON) :
  (forall b e, bucket_entry b = Normal e -> P e) ->
  exists l, parseGeminiCliQuota data = Normal l /\ Forall P l.
Proof.
  intros HP. unfold parseGeminiCliQuota.
  destruct (typeof_object data && negb (is_null data) && has_prop data "buckets")
    eqn:Hd; [|by exists []; split; [|constructor]].
  apply andb_prop in Hd as [Hd _]. apply andb_prop in Hd as [_ Hd].
  apply negb_true_iff in Hd.
  destruct (get_prop_not_null data "buckets" Hd) as [r ->]; simpl.
  destruct r as [[]|]; try (by exists []; split; [|constructor]).
  by apply buckets_loop_total; [|constructor].
Qed.

Lemma parseGeminiCliQuota_returns (data : JSON) :
  returns (parseGeminiCliQuota data) = true.
Proof.
  destruct (parseGeminiCliQuota_total (fun _ => True) data) as (l & -> & _); done.
Qed.

Lemma createAntigravityModelEntry_returns (name : string) (info : JSON) :
  returns (createAntigravityModelEntry name info) = entry_readable info.
Proof.
  unfold createAntigravityModelEntry.
  destruct info as [| | | | |props]; try reflexivity. simpl.
  destruct (own_property props "quotaInfo") as [qi|]; [|reflexivity].
  destruct qi; reflexivity.
Qed.

Lemma models_loop_returns entries :
  forall acc,
  returns (models_loop entries acc) = forallb (fun e => entry_readable (snd e)) entries.
Proof.
  induction entries as [|[name info] rest IH]; simpl; intros acc; [done|].
  rewrite <- createAntigravityModelEntry_returns with (name := name).
  destruct (createAntigravityModelEntry name info); simpl; [apply IH | done].
Qed.



(** C4.  The model parser throws on a payload whose models mapping holds a
    [null] entry: [infoObj.quotaInfo] is read without a null check. *)
Theorem parseAntigravityModels_throws_on_null_entry :
  parseAntigravityModels (JObj [("models", JObj [("gemini-3-pro", JNull)])])
    = Throw (TypeError_null "quotaInfo") /\
  parseAntigravityModels
    (JObj [("models", JObj [("gemini-3-pro", JObj [("quotaInfo", JNull)])])])
    = Throw (TypeError_null "remainingFraction").
Proof. split; reflexivity. Qed.

(** When the model parser returns at all. *)
Lemma parseAntigravityModels_returns (data : JSON) :
  returns (parseAntigravityModels data)
  = match data with
    | JObj props =>
        match own_property props "models" with
        | Some (JObj entries) => forallb (fun e => entry_readable (snd e)) entries
        | Some (JArr items) => forallb entry_readable items
        | _ => true
        end
    | _ => true
    end.
Proof.
  unfold parseAntigravityModels.
  destruct data as [| | | | |props]; try reflexivity. simpl.
  destruct (own_property props "models") as [models|] eqn:Hm; simpl.
  - destruct models as [| | | |items|entries]; try reflexivity; simpl.
    + rewrite models_loop_returns. clear Hm. generalize 0%nat.
      induction items as [|x rest IH]; intros n; [done|].
      cbn [index_entries forallb snd]. by rewrite IH.
    + apply models_loop_returns.
  - reflexivity.
Qed.

(** ** The per-account pipeline *)

Lemma pipeline_disabled (up : Upstream) (account : Account.t) (index : nat) :
  Account.enabled account = Some false ->
  getAntigravityAccountQuota up account index
  = ([], Normal (result_header account index [] [] ["Account is disabled"])).
Proof.
  intros He. unfold getAntigravityAccountQuota, result_header. simpl.
  by rewrite He.
Qed.

Lemma pipeline_no_refresh_token (up : Upstream) (account : Account.t) (index : nat) :
  Account.enabled account <> Some false ->
  truthy_string (Account.refreshToken account) = None ->
  getAntigravityAccountQuota up account index
  = ([], Normal (result_header account index [] []
                   ["No refresh token stored for this account"])).
Proof.
  intros He Ht. unfold getAntigravityAccountQuota, result_header. simpl.
  rewrite bool_decide_eq_false_2 by done. simpl. by rewrite Ht.
Qed.

Lemma pipeline_refresh_failed (up : Upstream) (account : Account.t) (index : nat)
    (refreshToken message : string) :
  Account.enabled account <> Some false ->
  truthy_string (Account.refreshToken account) = Some refreshToken ->
  refreshAccessToken up refreshToken = Rejected message ->
  getAntigravityAccountQuota up account index
  = ([CallRefresh refreshToken],
     Normal (result_header account index [] []
               ["Token refresh failed: " +:+ message])).
Proof.
  intros He Ht Hr. unfold getAntigravityAccountQuota, result_header. simpl.
  rewrite bool_decide_eq_false_2 by done. simpl. by rewrite Ht, Hr.
Qed.

Lemma pipeline_fetches (up : Upstream) (account : Account.t) (index : nat)
    (refreshToken accessToken : string) :
  Account.enabled account <> Some false ->
  truthy_string (Account.refreshToken account) = Some refreshToken ->
  refreshAccessToken up refreshToken = Fulfilled accessToken ->
  let agResult := fetchAntigravityModels up accessToken (Account.projectId account) in
  let gcResult := fetchGeminiCliQuota up accessToken (Account.projectId account) in
  getAntigravityAccountQuota up account index
  = ([CallRefresh refreshToken;
      CallModels accessToken (Account.projectId account);
      CallQuota accessToken (Account.projectId account)],
     models ← models_field agResult;
     buckets ← buckets_field gcResult;
     Normal (result_header account index models buckets
               (fetch_error "Antigravity models: " agResult
                ++ fetch_error "Gemini CLI quota: " gcResult))).
Proof.
  intros He Ht Hr ag gc. unfold getAntigravityAccountQuota, result_header. simpl.
  rewrite bool_decide_eq_false_2 by done. simpl. rewrite Ht, Hr.
  f_equal. fold ag gc. destruct ag as [v1|m1], gc as [v2|m2]; simpl.
  - destruct (parseAntigravityModels v1); simpl; [|done].
    by destruct (parseGeminiCliQuota v2).
  - by destruct (parseAntigravityModels v1).
  - by destruct (parseGeminiCliQuota v2).
  - done.
Qed.

(** The pipeline rejects exactly when a fetched models payload makes the
    parser throw. *)
Lemma pipeline_returns (up : Upstream) (account : Account.t) (index : nat) :
  (forall accessToken projectId value,
     fetchAntigravityModels up accessToken projectId = Fulfilled value ->
     returns (parseAntigravityModels value) = true) ->
  returns (snd (getAntigravityAccountQuota up account index)) = true.
Proof.
  intros Hparse.
  destruct (decide (Account.enabled account = Some false)) as [He|He].
  { by rewrite pipeline_disabled. }
  destruct (truthy_string (Account.refreshToken account)) as [rt|] eqn:Ht.
  2: { by rewrite pipeline_no_refresh_token. }
  destruct (refreshAccessToken up rt) as [tok|msg] eqn:Hr.
  2: { by erewrite pipeline_refresh_failed. }
  erewrite pipeline_fetches by done. simpl.
  destruct (fetchAntigravityModels up tok _) as [v1|m1] eqn:H1; simpl.
  - specialize (Hparse _ _ _ H1).
    destruct (parseAntigravityModels v1); [|done]. simpl.
    pose proof (parseGeminiCliQuota_returns) as Hg.
    destruct (fetchGeminiCliQuota up tok _) as [v2|m2]; simpl; [|done].
    specialize (Hg v2). by destruct (parseGeminiCliQuota v2).
  - pose proof (parseGeminiCliQuota_returns) as Hg.
    destruct (fetchGeminiCliQuota up tok _) as [v2|m2]; simpl; [|done].
    specialize (Hg v2). by destruct (parseGeminiCliQuota v2).
Qed.

Lemma pipeline_header (up : Upstream) (account : Account.t) (index : nat)
    (res : Result.t) :
  snd (getAntigravityAccountQuota up account index) = Normal res ->
  exists models buckets errors,
    res = result_header account index models buckets errors /\
    (Account.enabled account = Some false -> models = [] /\ buckets = []).
Proof.
  destruct (decide (Account.enabled account = Some false)) as [He|He].
  { rewrite pipeline_disabled by done. intros [= <-]. eauto 6. }
  destruct (truthy_string (Account.refreshToken account)) as [rt|] eqn:Ht.
  2: { rewrite pipeline_no_refresh_token by done. intros [= <-].
       eexists _, _, _; split; [done|]. done. }
  destruct (refreshAccessToken up rt) as [tok|msg] eqn:Hr.
  2: { erewrite pipeline_refresh_failed by done. intros [= <-].
       eexists _, _, _; split; [done|]. done. }
  erewrite pipeline_fetches by done. simpl. intros Hres.
  apply bind_Normal in Hres as (models & _ & Hres).
  apply bind_Normal in Hres as (buckets & _ & Hres).
  inversion Hres; subst. eexists _, _, _; split; [done|]. done.
Qed.

(** C3.  With a token obtained, the quota fetch rejected and the models
    fetch fulfilled by a payload with a [null] entry, the pipeline rejects:
    no result is returned, so the quota failure is not recorded and the
    models field is not populated. *)
Theorem pipeline_rejects_on_null_entry :
  getAntigravityAccountQuota upstream_null_entry alice 0
  = ([CallRefresh "1//refresh-a"; CallModels "ya29.token" None;
      CallQuota "ya29.token" None],
     Throw (TypeError_null "quotaInfo")).
Proof. reflexivity. Qed.

(** ** Aggregation over all accounts *)

Lemma Promise_all_Normal {A} (ps : list (completion A)) (l : list A) :
  Promise_all ps = Normal l <-> ps = Normal <$> l.
Proof.
  revert l. induction ps as [|p rest IH]; intros l; simpl.
  - split; [intros [= <-]; done|]. by destruct l.
  - destruct p as [a|e]; simpl.
    + destruct (Promise_all rest) as [l'|e] eqn:Hr; simpl.
      * split.
        -- intros [= <-]. simpl. f_equal. by apply IH.
        -- destruct l as [|a' l'']; [done|]. intros [= -> Hl]. f_equal. f_equal.
           apply IH in Hl. congruence.
      * split; [done|]. destruct l as [|a' l'']; [done|]. intros [= -> Hl].
        apply IH in Hl. congruence.
    + split; [done|]. by destruct l.
Qed.

Lemma Promise_all_returns {A} (ps : list (completion A)) :
  returns (Promise_all ps) = forallb returns ps.
Proof.
  induction ps as [|[a|e] rest IH]; simpl; [done| |done].
  rewrite <- IH. by destruct (Promise_all rest).
Qed.

Lemma map_pipelines_lookup (net : nat -> Upstream) (accounts : list Account.t) :
  forall n i,
  map_pipelines net n accounts !! i
  = (fun acc => getAntigravityAccountQuota (net (n + i)) acc (n + i)) <$> accounts !! i.
Proof.
  induction accounts as [|acc rest IH]; intros n i; simpl; [done|].
  destruct i as [|i]; simpl.
  - by rewrite Nat.add_0_r.
  - rewrite IH. by rewrite Nat.add_succ_r.
Qed.

Lemma map_pipelines_length (net : nat -> Upstream) (accounts : list Account.t) n :
  length (map_pipelines net n accounts) = length accounts.
Proof. revert n. induction accounts; intros n; simpl; auto. Qed.

Lemma getAll_Normal (net : nat -> Upstream) (file : list Account.t) (r : All.t) :
  getAntigravityQuotaAll net file = Normal r ->
  file <> [] /\
  snd <$> map_pipelines net 0 file = Normal <$> All.accounts r /\
  r = All.mk (length file)
        (length (filter (fun a => Account.enabled a ≠ Some false) file))
        (All.accounts r) (build_summary (All.accounts r)).
Proof.
  unfold getAntigravityQuotaAll, loadAccounts. intros Hr.
  destruct (decide (file = [])) as [->|Hne]; [discriminate|].
  rewrite bool_decide_eq_false_2 in Hr by (by destruct file).
  apply bind_Normal in Hr as (accounts & [= <-] & Hr).
  apply bind_Normal in Hr as (results & Hl & [= <-]).
  simpl. split; [done|]. split; [|done]. by apply Promise_all_Normal.
Qed.

(** Supporting C2: when no fetched models payload makes the parser throw,
    the call returns one result per loaded account. *)
Lemma getAll_returns (net : nat -> Upstream) (file : list Account.t) :
  file <> [] ->
  (forall i accessToken projectId value,
     fetchAntigravityModels (net i) accessToken projectId = Fulfilled value ->
     returns (parseAntigravityModels value) = true) ->
  exists r, getAntigravityQuotaAll net file = Normal r /\
            length (All.accounts r) = length file.
Proof.
  intros Hne Hparse. unfold getAntigravityQuotaAll, loadAccounts.
  rewrite bool_decide_eq_false_2 by (by destruct file). simpl.
  destruct (Promise_all (snd <$> map_pipelines net 0 file)) as [l|e] eqn:Hl.
  - simpl. eexists; split; [done|]. simpl.
    apply Promise_all_Normal in Hl.
    apply (f_equal length) in Hl. rewrite !length_fmap in Hl.
    by rewrite map_pipelines_length in Hl.
  - exfalso. assert (returns (Promise_all (snd <$> map_pipelines net 0 file)) = true)
      as Hret; [|by rewrite Hl in Hret].
    rewrite Promise_all_returns. apply forallb_forall. intros p Hp.
    apply list_elem_of_In, list_elem_of_fmap in Hp as (q & -> & Hq).
    apply list_elem_of_lookup in Hq as [i Hi].
    rewrite map_pipelines_lookup in Hi.
    destruct (file !! i) as [acc|]; [|done]. simpl in Hi.
    injection Hi as <-. apply pipeline_returns. apply Hparse.
Qed.

(** C2.  Of two enabled accounts, the first one's models payload holds a
    [null] entry: the whole call rejects, and the second account's result is
    lost with it. *)
Theorem getAll_aborted_by_one_account :
  getAntigravityQuotaAll
    (fun i => if (i =? 0)%nat then upstream_null_entry else upstream_healthy)
    [alice; bob]
  = Throw (TypeError_null "quotaInfo") /\
  returns (snd (getAntigravityAccountQuota upstream_healthy bob 1)) = true.
Proof. split; reflexivity. Qed.

(** C10.  A successful call reports the number of loaded accounts, the
    number of those not disabled, and one result per account in load order,
    each with its position as [account_index], the synthetic email
    [account_<index>] when the email is empty or absent, and a null
    [projectId] when there is none. *)
Theorem getAll_shape (net : nat -> Upstream) (file : list Account.t) (r : All.t) :
  getAntigravityQuotaAll net file = Normal r ->
  All.total_accounts r = length file /\
  All.enabled_accounts r
    = length (filter (fun a => Account.enabled a ≠ Some false) file) /\
  length (All.accounts r) = length file /\
  forall i account, file !! i = Some account ->
    exists res, All.accounts r !! i = Some res /\
      Result.account_index res = i /\
      Result.email res
        = match Account.email account with
          | Some email =>
              if String.eqb email EmptyString then "account_" +:+ index_key i
              else email
          | None => "account_" +:+ index_key i
          end /\
      Result.projectId res
        = match Account.projectId account with
          | Some projectId =>
              if String.eqb projectId EmptyString then None else Some projectId
          | None => None
          end /\
      Result.enabled res = negb (bool_decide (Account.enabled account = Some false)).
Proof.
  intros Hr. apply getAll_Normal in Hr as (Hne & Hps & Hr).
  assert (length (All.accounts r) = length file) as Hlen.
  { apply (f_equal length) in Hps. rewrite !length_fmap in Hps.
    by rewrite map_pipelines_length in Hps. }
  rewrite Hr at 1 2. simpl. repeat split; [done|].
  intros i account Hi.
  apply (f_equal (fun l => l !! i)) in Hps.
  rewrite !list_lookup_fmap, map_pipelines_lookup, Hi in Hps. simpl in Hps.
  destruct (All.accounts r !! i) as [res|]; [|done]. simpl in Hps.
  injection Hps as Hp. exists res. split; [done|].
  apply pipeline_header in Hp as (ms & bs & es & -> & _).
  unfold result_header, account_label, truthy_string. simpl.
  repeat split.
  destruct (Account.email account) as [e|]; [|done].
  by destruct (String.eqb e EmptyString).
Qed.

Lemma getAll_shape_witness :
  exists r,
    getAntigravityQuotaAll (fun _ => upstream_healthy)
      [alice; anonymous_disabled]
    = Normal r /\
    All.total_accounts r = 2%nat /\ All.enabled_accounts r = 1%nat /\
    Result.email <$> All.accounts r = ["alice@example.com"; "account_1"].
Proof.
  eexists. split; [reflexivity|].
  pose proof (getAll_shape (fun _ => upstream_healthy)
                [alice; anonymous_disabled]
                _ eq_refl) as (Ht & He & _ & _).
  split; [exact Ht|]. split; [exact He|]. reflexivity.
Defined.

(** ** The cross-account summary *)

Lemma summary_account_steps (s : gmap string Summary.t) (acct : Result.t) :
  summary_account s acct = summary_steps (account_observations acct) s.
Proof.
  unfold summary_account, account_observations, summary_steps.
  destruct (Result.enabled acct); simpl; [|done].
  rewrite foldl_app. rewrite !foldl_fmap. done.
Qed.

Lemma build_summary_steps (results : list Result.t) :
  build_summary results = summary_steps (observations results) ∅.
Proof.
  unfold build_summary, observations. generalize (∅ : gmap string Summary.t).
  induction results as [|acct rest IH]; intros s; simpl; [done|].
  rewrite IH, summary_account_steps. unfold summary_steps. by rewrite foldl_app.
Qed.

Lemma summary_step_other (key k : string) (pct : option Z)
    (s : gmap string Summary.t) :
  k <> key -> summary_step key pct s !! k = s !! k.
Proof.
  intros Hk. unfold summary_step.
  destruct (negb (key_in key s)).
  - rewrite lookup_insert_eq. destruct pct as [p|]; [|by rewrite lookup_insert_ne].
    destruct (0 <? p)%Z; by rewrite !lookup_insert_ne.
  - destruct (s !! key) as [e|], pct as [p|]; try done.
    destruct (0 <? p)%Z; [by rewrite lookup_insert_ne | done].
Qed.

Lemma summary_step_same (key : string) (pct : option Z) (s : gmap string Summary.t) :
  summary_step key pct s !! key
  = match s !! key with
    | Some entry => Some (raised entry (positive_pct key (key, pct)))
    | None =>
        if bool_decide (key ∈ Object_prototype_names) then None
        else Some (raised (Summary.mk (-1) 0) (positive_pct key (key, pct)))
    end.
Proof.
  unfold summary_step, key_in, positive_pct, raised. simpl.
  rewrite (bool_decide_eq_true_2 (key = key)) by done. simpl.
  destruct (s !! key) as [[b a]|] eqn:Hs.
  - rewrite (bool_decide_eq_true_2 (is_Some _)) by eauto. simpl. rewrite Hs.
    destruct pct as [p|]; simpl; [|by rewrite Nat.add_0_r].
    destruct (0 <? p)%Z; simpl.
    + rewrite lookup_insert_eq. do 2 f_equal. lia.
    + by rewrite Hs, Nat.add_0_r.
  - rewrite (bool_decide_eq_false_2 (is_Some _)) by (by intros [? ?]). simpl.
    destruct (bool_decide (key ∈ Object_prototype_names)); simpl.
    + rewrite Hs. destruct pct; done.
    + rewrite lookup_insert_eq. destruct pct as [p|]; simpl.
      * destruct (0 <? p)%Z; simpl; by rewrite lookup_insert_eq.
      * by rewrite lookup_insert_eq.
Qed.

Lemma raised_app (entry : Summary.t) (l1 l2 : list Z) :
  raised (raised entry l1) l2 = raised entry (l1 ++ l2).
Proof.
  unfold raised. simpl. rewrite foldl_app, length_app. f_equal. lia.
Qed.

Lemma summary_steps_lookup (os : list (string * option Z)) (k : string) :
  forall s : gmap string Summary.t,
  summary_steps os s !! k
  = match s !! k with
    | Some entry => Some (raised entry (os ≫= positive_pct k))
    | None =>
        if bool_decide (k ∈ Object_prototype_names) then None
        else if bool_decide (k ∈ os.*1)
             then Some (raised (Summary.mk (-1) 0) (os ≫= positive_pct k))
             else None
    end.
Proof.
  induction os as [|[key pct] rest IH]; intros s.
  - simpl. destruct (s !! k) as [[b a]|]; [|by destruct (bool_decide _)].
    unfold raised. simpl. by rewrite Nat.add_0_r.
  - change (summary_steps ((key, pct) :: rest) s)
      with (summary_steps rest (summary_step key pct s)).
    rewrite IH. clear IH.
    change (((key, pct) :: rest) ≫= positive_pct k)
      with (positive_pct k (key, pct) ++ (rest ≫= positive_pct k)).
    destruct (decide (k = key)) as [->|Hk].
    + rewrite summary_step_same.
      rewrite (bool_decide_eq_true_2 (key ∈ ((key, pct) :: rest).*1))
        by (simpl; apply list_elem_of_here).
      destruct (s !! key) as [entry|]; [by rewrite raised_app|].
      destruct (bool_decide (key ∈ Object_prototype_names)); [done|].
      by rewrite raised_app.
    + rewrite summary_step_other by done.
      assert (positive_pct k (key, pct) = []) as ->.
      { unfold positive_pct. simpl. destruct pct; [|done].
        by rewrite bool_decide_eq_false_2 by congruence. }
      simpl. destruct (s !! k); [done|].
      destruct (bool_decide (k ∈ Object_prototype_names)); [done|].
      destruct (decide (k ∈ rest.*1)) as [Hin|Hin].
      * rewrite !bool_decide_eq_true_2; [done| |done]. by apply list_elem_of_further.
      * rewrite !bool_decide_eq_false_2; [done| |done].
        intros [?|?]%elem_of_cons; done.
Qed.

Lemma foldl_max_spec (l : list Z) :
  forall d : Z,
  (d <= foldl Z.max d l)%Z /\
  (forall p, p ∈ l -> (p <= foldl Z.max d l)%Z) /\
  (foldl Z.max d l = d \/ foldl Z.max d l ∈ l).
Proof.
  induction l as [|x rest IH]; intros d; simpl.
  - split; [lia|]. split; [|by left]. intros p Hp. by apply elem_of_nil in Hp.
  - destruct (IH (Z.max d x)) as (Hd & Hall & Hmem). split; [lia|]. split.
    + intros p [->|Hp]%elem_of_cons; [lia | by apply Hall].
    + destruct Hmem as [Hm|Hm].
      * destruct (Z.max_spec d x) as [[_ Hx]|[_ Hx]]; rewrite Hm, Hx.
        -- right. apply list_elem_of_here.
        -- by left.
      * right. by apply list_elem_of_further.
Qed.





(** ** A single account by identifier *)




Lemma Qred_inject_Z (z : Z) : Qred (inject_Z z) = inject_Z z.
Proof.
  unfold Qred, inject_Z. simpl.
  pose proof (Z.ggcd_gcd z 1) as Hg. pose proof (Z.ggcd_correct_divisors z 1) as Hd.
  destruct (Z.ggcd z 1) as [g [a b]]. simpl in *.
  rewrite Z.gcd_1_r in Hg. subst g. destruct Hd as [Ha Hb].
  assert (a = z) as -> by lia. assert (b = 1%Z) as -> by lia. done.
Qed.

Lemma array_get_integral {A} (l : list A) (index : Q) (i : nat) (a : A) :
  (index == inject_Z (Z.of_nat i))%Q -> l !! i = Some a ->
  array_get l index = Some (i, a).
Proof.
  intros Heq Hi. unfold array_get.
  rewrite (Qred_complete _ _ Heq).
  rewrite Qred_inject_Z.
  simpl. rewrite (proj2 (Z.leb_le 0 (Z.of_nat i))) by lia.
  rewrite Nat2Z.id, Hi. done.
Qed.

Lemma getOne_at (up : Upstream) (file : list Account.t) (identifier : identifier)
    (index : Q) (i : nat) (account : Account.t) :
  resolve_index file identifier = Normal index ->
  (index == inject_Z (Z.of_nat i))%Q -> file !! i = Some account ->
  getAntigravityQuotaSingle up file identifier
  = getAntigravityAccountQuota up account i.
Proof.
  intros Hres Heq Hi. unfold getAntigravityQuotaSingle, loadAccounts.
  pose proof (lookup_lt_Some _ _ _ Hi) as Hlt.
  rewrite bool_decide_eq_false_2 by lia. simpl. rewrite Hres. simpl.
  assert (Qltb index 0 = false) as ->.
  { unfold Qltb. apply negb_false_iff, Qle_bool_iff. rewrite Heq.
    unfold Qle. simpl. lia. }
  assert (Qle_bool (inject_Z (Z.of_nat (length file))) index = false) as ->.
  { apply not_true_is_false. rewrite Qle_bool_iff, Heq. unfold Qle. simpl. lia. }
  simpl. by rewrite (array_get_integral _ _ i account).
Qed.



(** ** Validation of [hours] *)

Lemma finite_positive_Some `{Runtime} (parsed : number) (q : Q) :
  finite_positive parsed = Some q <-> parsed = Finite q /\ (0 < q)%Q.
Proof.
  unfold finite_positive, Qltb.
  destruct parsed as [p| | |]; try (split; [done | by intros [? _]]).
  destruct (Qle_bool p 0) eqn:Hp; simpl.
  - apply Qle_bool_iff in Hp. split; [done|]. intros [[= ->] Hq].
    exfalso. by apply (Qlt_not_le _ _ Hq).
  - split.
    + intros [= ->]. split; [done|]. apply Qnot_le_lt. intros Hle.
      apply Qle_bool_iff in Hle. congruence.
    + by intros [[= ->] _].
Qed.

(** The modular server: an absent value is 24, a value that coerces to a
    finite number above zero is that number, and any other value is
    rejected with the offending value before any outbound call. *)
Lemma validateHours_spec `{Runtime} (client : UsageClient) (hours : option JSON) :
  (hours = None -> validateHours hours = Normal 24%Q) /\
  (forall v q, hours = Some v -> Number (Some v) = Finite q -> (0 < q)%Q ->
     validateHours hours = Normal q) /\
  (forall v, hours = Some v ->
     (forall q, Number (Some v) = Finite q -> (q <= 0)%Q) ->
     validateHours hours = Throw (InvalidHours v) /\
     getModelUsage client hours = ([], Throw (InvalidHours v)) /\
     getToolUsage client hours = ([], Throw (InvalidHours v)) /\
     getFullUsage client hours = ([], Throw (InvalidHours v))).
Proof.
  split; [by intros ->|]. split.
  - intros v q -> Hn Hq. unfold validateHours.
    by rewrite (proj2 (finite_positive_Some (Number (Some v)) q)).
  - intros v -> Hbad.
    assert (validateHours (Some v) = Throw (InvalidHours v)) as Hv.
    { unfold validateHours.
      destruct (finite_positive (Number (Some v))) as [q|] eqn:Hq; [|done].
      apply finite_positive_Some in Hq as [Hn Hq].
      exfalso. by apply (Qlt_not_le _ _ Hq), Hbad. }
    unfold getModelUsage, getToolUsage, getFullUsage. by rewrite Hv.
Qed.

(** C6.  The single-file server does not reject: for [hours = -1] its
    [validateHours] yields 24 and the outbound call is made with it, where
    the modular server throws before any call. *)
Theorem validateHours_js_substitutes_default `{Runtime} (client : UsageClient) :
  validateHours_js (Some (JNum (-1))) = 24%Q /\
  js_get_model_usage client (Some (JNum (-1)))
  = ([CallFetchModelUsage 24%Q], awaited (fetchModelUsage client 24%Q)) /\
  getModelUsage client (Some (JNum (-1))) = ([], Throw (InvalidHours (JNum (-1)))).
Proof. repeat split. Qed.

(** ** The protocol dispatcher *)






(** ** The transport loop *)

Section Transport.
Variable executeTool : option JSON -> JSON -> completion JSON.

Lemma checkExit_consistent (s : State) :
  exited s = false -> pendingRequests s = length (awaiting s) ->
  consistent (checkExit s).
Proof.
  intros He Hp. unfold consistent, checkExit.
  destruct (stdinClosed s && (pendingRequests s =? 0)%nat) eqn:Hc; simpl.
  - by rewrite Hc.
  - by rewrite Hc, He.
Qed.

Lemma step_consistent (s : State) (ev : event) :
  consistent s -> consistent (step executeTool s ev).
Proof.
  intros [He Hp]. unfold step. destruct (exited s) eqn:Hx.
  { split; [congruence | done]. }
  destruct ev as [[| |msg]|k|].
  - split; simpl; [congruence | done].
  - split; simpl; [congruence | done].
  - split; simpl; [|rewrite length_app; simpl; lia].
    rewrite Hx. by destruct (stdinClosed s).
  - unfold on_settled. destruct (awaiting s !! k) as [msg|] eqn:Hk.
    2: { split; [congruence | done]. }
    apply checkExit_consistent.
    + by destruct (handleMessage executeTool msg) as [[response|]|].
    + assert (length (delete k (awaiting s)) = pred (pendingRequests s)) as Hl.
      { rewrite length_delete by eauto. lia. }
      by destruct (handleMessage executeTool msg) as [[response|]|].
  - by apply checkExit_consistent.
Qed.

Lemma run_consistent (evs : list event) : consistent (run executeTool evs).
Proof.
  unfold run. assert (consistent initial) as Hi by (by split).
  revert Hi. generalize initial.
  induction evs as [|ev rest IH]; intros s Hs; simpl; [done|].
  by apply IH, step_consistent.
Qed.

Lemma elem_of_delete_or {A} (l : list A) (k : nat) (x : A) :
  x ∈ l -> x ∈ delete k l \/ l !! k = Some x.
Proof.
  revert k. induction l as [|y rest IH]; intros k Hx; [by apply elem_of_nil in Hx|].
  destruct k as [|k]; simpl.
  - apply elem_of_cons in Hx as [->|Hx]; [by right | by left].
  - apply elem_of_cons in Hx as [->|Hx]; [left; apply list_elem_of_here|].
    destruct (IH k Hx) as [Hd|Hk]; [left; by apply list_elem_of_further | by right].
Qed.

Lemma step_tracked (s : State) (ev : event) (msg : JSON) :
  tracked executeTool msg s \/ msg ∈ accepts s ev ->
  tracked executeTool msg (step executeTool s ev).
Proof.
  unfold step, accepts. destruct (exited s) eqn:Hx.
  { intros [Ht|Hin]; [done|]. destruct ev as [[| |m]|k|]; by apply elem_of_nil in Hin. }
  destruct ev as [[| |m]|k|]; simpl.
  - intros [Ht|Hin]; [done | by apply elem_of_nil in Hin].
  - intros [[Ha|Hw]|Hin]; [by left | | by apply elem_of_nil in Hin].
    right. intros response Hr. simpl. apply elem_of_app. left. by apply Hw.
  - intros [[Ha|Hw]|Hin].
    + left. simpl. apply elem_of_app. by left.
    + by right.
    + left. simpl. apply elem_of_app. right.
      apply list_elem_of_singleton in Hin as ->. apply list_elem_of_here.
  - intros [Ht|Hin]; [|by apply elem_of_nil in Hin].
    unfold on_settled. destruct (awaiting s !! k) as [m|] eqn:Hk; [|done].
    assert (forall s', tracked executeTool msg s' ->
                  tracked executeTool msg (checkExit s')) as Hce.
    { intros s' Hs'. unfold checkExit. by destruct (stdinClosed s' && _). }
    apply Hce. destruct Ht as [Ha|Hw].
    + destruct (elem_of_delete_or _ k _ Ha) as [Hd|Hm].
      * left. by destruct (handleMessage executeTool m) as [[response|]|].
      * rewrite Hk in Hm. injection Hm as ->. right. intros response Hr.
        rewrite Hr. simpl. apply elem_of_app. right. apply list_elem_of_here.
    + right. intros response Hr. specialize (Hw response Hr).
      destruct (handleMessage executeTool m) as [[response'|]|]; simpl; [|done|done].
      apply elem_of_app. by left.
  - intros [Ht|Hin]; [|by apply elem_of_nil in Hin].
    unfold on_close, checkExit. simpl. by destruct (pendingRequests s =? 0)%nat.
Qed.

Lemma run_tracked (evs : list event) :
  forall (s : State) (msg : JSON),
  tracked executeTool msg s \/ msg ∈ accepted_from executeTool s evs ->
  tracked executeTool msg (foldl (step executeTool) s evs).
Proof.
  induction evs as [|ev rest IH]; intros s msg; simpl.
  - intros [Ht|Hin]; [done | by apply elem_of_nil in Hin].
  - intros [Ht|Hin]; apply IH.
    + left. apply step_tracked. by left.
    + apply elem_of_app in Hin as [Hin|Hin]; [|by right].
      left. apply step_tracked. by right.
Qed.

(** C9.  In every state the loop reaches, the process has exited exactly
    when the input is closed and no request is pending; the counter is
    the number of calls in flight; closing the input while a call is in
    flight does not exit; and once the process has exited, the response
    of every message handed to the dispatcher has been written. *)
Theorem exit_exactly_when_drained (evs : list event) :
  let s := run executeTool evs in
  (exited s = true <-> stdinClosed s = true /\ pendingRequests s = 0%nat) /\
  pendingRequests s = length (awaiting s) /\
  (awaiting s <> [] ->
   exited s = false /\ exited (step executeTool s OnClose) = false) /\
  (exited s = true ->
   forall msg response,
     msg ∈ accepted executeTool evs ->
     handleMessage executeTool msg = Normal (Some response) ->
     response ∈ stdout s).
Proof.
  intros s. destruct (run_consistent evs) as [He Hp]. fold s in He, Hp.
  split.
  { rewrite He, andb_true_iff, Nat.eqb_eq. done. }
  split; [done|]. split.
  { intros Hne.
    assert (pendingRequests s <> 0%nat) as Hn.
    { rewrite Hp. by destruct (awaiting s). }
    assert (exited s = false) as Hx.
    { rewrite He. apply Nat.eqb_neq in Hn. rewrite Hn. apply andb_false_r. }
    split; [done|]. unfold step. rewrite Hx.
    unfold on_close, checkExit. simpl. apply Nat.eqb_neq in Hn. by rewrite Hn. }
  intros Hx msg response Hin Hr.
  destruct (run_tracked evs initial msg (or_intror Hin)) as [Ha|Hw].
  - exfalso. fold (run executeTool evs) in Ha. fold s in Ha.
    rewrite He in Hx. apply andb_true_iff in Hx as [_ Hz].
    apply Nat.eqb_eq in Hz. rewrite Hp in Hz.
    destruct (awaiting s); [by apply elem_of_nil in Ha | done].
  - by apply Hw.
Qed.
End Transport.

(** A slow tool call is pending when the input closes: the process stays
    alive, and exits only with the call's response on the output. *)
Lemma exit_exactly_when_drained_witness :
  exited (run no_tools [OnLine (Parsed call_with_id); OnClose]) = false /\
  exited (run no_tools [OnLine (Parsed call_with_id); OnClose; OnSettled 0]) = true /\
  makeError (JNum 2) (-32000) (Thrown (UnknownTool (Some (JStr "bogus_tool"))))
    ∈ stdout (run no_tools [OnLine (Parsed call_with_id); OnClose; OnSettled 0]).
Proof.
  split.
  - apply (proj1 (proj2 (proj2 (exit_exactly_when_drained no_tools
                                  [OnLine (Parsed call_with_id)])))).
    discriminate.
  - split; [reflexivity|].
    apply (proj2 (proj2 (proj2 (exit_exactly_when_drained no_tools
             [OnLine (Parsed call_with_id); OnClose; OnSettled 0]))) eq_refl
             call_with_id).
    + apply list_elem_of_here.
    + reflexivity.
Defined.

(** * Further properties *)

(** ** Payload parsers *)

Lemma models_loop_names (entries : list (string * JSON)) :
  forall acc l,
  models_loop entries acc = Normal l ->
  Model.model <$> l = (Model.model <$> acc) ++ entries.*1.
Proof.
  induction entries as [|[name info] rest IH]; simpl; intros acc l Hl.
  - injection Hl as <-. by rewrite app_nil_r.
  - apply bind_Normal in Hl as (e & He & Hl).
    apply createAntigravityModelEntry_fields in He as [Hname _].
    rewrite (IH _ _ Hl), fmap_app, <- app_assoc. simpl. by rewrite Hname.
Qed.

(** X1.  When the model parser returns, its list has one entry per key of
    the [models] mapping, in the mapping's order and named by the key
    (the indices, for an array); a payload without a [models] property, or
    one that is not an object, gives the empty list. *)
Theorem parsed_models_follow_keys (data : JSON) :
  (forall props models l,
     data = JObj props -> own_property props "models" = Some models ->
     parseAntigravityModels data = Normal l ->
     Model.model <$> l = (Object_entries models).*1) /\
  (has_prop data "models" = false -> parseAntigravityModels data = Normal []).
Proof.
  split.
  - intros props models l -> Hm. unfold parseAntigravityModels. simpl.
    rewrite Hm. simpl.
    destruct models as [| | | |items|entries]; simpl;
      try (by intros [= <-]); intros Hl;
      by rewrite (models_loop_names _ _ _ Hl).
  - intros Hp. unfold parseAntigravityModels. rewrite Hp.
    by rewrite orb_true_r.
Qed.

Lemma parsed_models_follow_keys_witness :
  exists l,
    parseAntigravityModels sample_models = Normal l /\
    Model.model <$> l = ["gemini-3-pro"; "claude-sonnet"].
Proof.
  eexists. split; [reflexivity|].
  exact (proj1 (parsed_models_follow_keys sample_models) _ _ _ eq_refl eq_refl eq_refl).
Defined.

Lemma index_entries_readable (items : list JSON) :
  forall n,
  forallb (fun e => entry_readable (snd e)) (index_entries n items)
  = forallb entry_readable items.
Proof.
  induction items as [|x rest IH]; intros n; [done|].
  cbn [index_entries forallb snd]. by rewrite IH.
Qed.

(** X2.  The model parser returns exactly when no entry of the [models]
    mapping is [null] and none has a [null] [quotaInfo]; in particular it
    returns on a payload without [models], and on one whose [models] is
    [null] or not an object. *)
Theorem model_parser_returns_exactly (data : JSON) :
  returns (parseAntigravityModels data) = true <->
  forall props models name info,
    data = JObj props -> own_property props "models" = Some models ->
    (name, info) ∈ Object_entries models ->
    info <> JNull /\ get_prop info "quotaInfo" <> Normal (Some JNull).
Proof.
  assert (forall info,
            entry_readable info = true <->
            info <> JNull /\ get_prop info "quotaInfo" <> Normal (Some JNull)) as Hr.
  { intros info. destruct info as [| | | | |ps]; simpl;
      try (split; [intros _; split; congruence | done]).
    - split; [done | intros [? _]; done].
    - destruct (own_property ps "quotaInfo") as [[| | | | |]|];
        (split; [intros ?; split; congruence | intros [_ ?]; congruence]). }
  rewrite parseAntigravityModels_returns.
  destruct data as [| | | | |props]; try (split; [intros _ ? ? ? ? ?; discriminate | done]).
  destruct (own_property props "models") as [models|] eqn:Hm.
  - assert (match models with
            | JObj entries => forallb (fun e => entry_readable (snd e)) entries
            | JArr items => forallb entry_readable items
            | _ => true
            end = forallb (fun e => entry_readable (snd e)) (Object_entries models))
      as ->.
    { destruct models; simpl; try reflexivity. by rewrite index_entries_readable. }
    rewrite forallb_forall. split.
    + intros Hall ps ms name info [= <-] Hms Hin. rewrite Hm in Hms.
      injection Hms as <-. apply Hr. apply (Hall (name, info)).
      by apply list_elem_of_In.
    + intros Hall [name info] Hin. simpl. apply Hr.
      apply (Hall props models name info); [done | done |]. by apply list_elem_of_In.
  - split; [intros _ ps ms name info [= <-] Hms; congruence | done].
Qed.

Lemma bucket_entry_model (b : JSON) :
  is_null b = false ->
  exists e, bucket_entry b = Normal e /\ Bucket.model e = bucket_model b.
Proof.
  intros Hn. destruct b; try discriminate; simpl; eauto.
Qed.

Lemma buckets_loop_models (items : list JSON) :
  forall acc,
  exists l,
    buckets_loop items acc = Normal l /\
    Bucket.model <$> l
    = (Bucket.model <$> acc)
      ++ (bucket_model
            <$> filter (fun b => typeof_object b && negb (is_null b) = true) items).
Proof.
  induction items as [|b rest IH]; intros acc.
  - exists acc. split; [done|]. by rewrite filter_nil, app_nil_r.
  - cbn [buckets_loop]. rewrite filter_cons.
    destruct (typeof_object b && negb (is_null b)) eqn:Hb.
    + rewrite decide_True by done.
      apply andb_prop in Hb as [_ Hb]. apply negb_true_iff in Hb.
      destruct (bucket_entry_model b Hb) as (e & -> & He). simpl.
      destruct (IH (acc ++ [e])) as (l & -> & Hl). exists l. split; [done|].
      rewrite Hl, fmap_app, <- app_assoc. simpl. by rewrite He.
    + rewrite decide_False by done. apply IH.
Qed.

(** X3.  The quota-bucket parser returns on every payload; its list has one
    entry for each item of [buckets] that is an object (or array) other
    than [null], in order, named by the item's [modelId] when that is a
    string and ["unknown"] otherwise; every other item is skipped. *)
Theorem quota_parser_keeps_object_items (data : JSON) :
  exists l,
    parseGeminiCliQuota data = Normal l /\
    Bucket.model <$> l = bucket_model <$> kept_buckets data.
Proof.
  unfold parseGeminiCliQuota, kept_buckets.
  destruct data as [| | | | |props]; try (by exists []).
  simpl. destruct (own_property props "buckets") as [buckets|]; [|by exists []].
  simpl. destruct buckets as [| | | |items|]; try (by exists []).
  apply (buckets_loop_models items []).
Qed.

(** ** The per-account pipeline *)

Lemma pipeline_cases (up : Upstream) (account : Account.t) (index : nat) :
  (Account.enabled account = Some false /\
   getAntigravityAccountQuota up account index
   = ([], Normal (result_header account index [] [] ["Account is disabled"]))) \/
  (Account.enabled account <> Some false /\
   truthy_string (Account.refreshToken account) = None /\
   getAntigravityAccountQuota up account index
   = ([], Normal (result_header account index [] []
                    ["No refresh token stored for this account"]))) \/
  (exists refreshToken message,
     Account.enabled account <> Some false /\
     truthy_string (Account.refreshToken account) = Some refreshToken /\
     refreshAccessToken up refreshToken = Rejected message /\
     getAntigravityAccountQuota up account index
     = ([CallRefresh refreshToken],
        Normal (result_header account index [] []
                  ["Token refresh failed: " +:+ message]))) \/
  (exists refreshToken accessToken,
     Account.enabled account <> Some false /\
     truthy_string (Account.refreshToken account) = Some refreshToken /\
     refreshAccessToken up refreshToken = Fulfilled accessToken /\
     getAntigravityAccountQuota up account index
     = ([CallRefresh refreshToken;
         CallModels accessToken (Account.projectId account);
         CallQuota accessToken (Account.projectId account)],
        models ← models_field
                   (fetchAntigravityModels up accessToken (Account.projectId account));
        buckets ← buckets_field
                    (fetchGeminiCliQuota up accessToken (Account.projectId account));
        Normal (result_header account index models buckets
                  (fetch_error "Antigravity models: "
                     (fetchAntigravityModels up accessToken (Account.projectId account))
                   ++ fetch_error "Gemini CLI quota: "
                        (fetchGeminiCliQuota up accessToken
                           (Account.projectId account)))))).
Proof.
  destruct (decide (Account.enabled account = Some false)) as [He|He].
  { left. split; [done|]. by apply pipeline_disabled. }
  destruct (truthy_string (Account.refreshToken account)) as [rt|] eqn:Ht.
  2: { right; left. split; [done|]. split; [done|]. by apply pipeline_no_refresh_token. }
  destruct (refreshAccessToken up rt) as [tok|msg] eqn:Hr.
  - right; right; right. exists rt, tok. repeat split; try done.
    by apply pipeline_fetches.
  - right; right; left. exists rt, msg. repeat split; try done.
    by apply pipeline_refresh_failed.
Qed.

(** X4.  The outbound calls of one pipeline: none for a disabled account or
    one without a refresh token, at most three in all, and a quota fetch
    only after a fulfilled token refresh, with the token it returned and
    the account's project. *)
Theorem pipeline_calls (up : Upstream) (account : Account.t) (index : nat) :
  let calls := fst (getAntigravityAccountQuota up account index) in
  (Account.enabled account = Some false \/
   truthy_string (Account.refreshToken account) = None -> calls = []) /\
  (length calls <= 3)%nat /\
  (forall accessToken projectId,
     CallModels accessToken projectId ∈ calls \/
     CallQuota accessToken projectId ∈ calls ->
     Account.enabled account <> Some false /\
     projectId = Account.projectId account /\
     exists refreshToken,
       truthy_string (Account.refreshToken account) = Some refreshToken /\
       refreshAccessToken up refreshToken = Fulfilled accessToken /\
       calls = [CallRefresh refreshToken; CallModels accessToken projectId;
                CallQuota accessToken projectId]).
Proof.
  intros calls. unfold calls.
  destruct (pipeline_cases up account index)
    as [[He ->]|[(He & Ht & ->)|[(rt & msg & He & Ht & Hr & ->)
                                 |(rt & tok & He & Ht & Hr & ->)]]]; simpl.
  - split; [done|]. split; [lia|]. intros tok pid [Hin|Hin]; by apply elem_of_nil in Hin.
  - split; [done|]. split; [lia|]. intros tok pid [Hin|Hin]; by apply elem_of_nil in Hin.
  - split; [intros [?|?]; congruence|]. split; [lia|].
    intros tok pid [Hin|Hin]; apply list_elem_of_singleton in Hin; discriminate.
  - split; [intros [?|?]; congruence|]. split; [lia|].
    intros tok' pid Hin.
    assert (tok' = tok /\ pid = Account.projectId account) as [-> ->].
    { destruct Hin as [Hin|Hin];
        repeat (apply elem_of_cons in Hin as [Hin|Hin]; [by inversion Hin|]);
        by apply elem_of_nil in Hin. }
    split; [done|]. split; [done|]. by exists rt.
Qed.

Lemma pipeline_calls_witness :
  fst (getAntigravityAccountQuota upstream_healthy carol_disabled 2) = [].
Proof.
  apply (proj1 (pipeline_calls upstream_healthy carol_disabled 2)).
  left. reflexivity.
Defined.

(** X5.  A returned result has at most two errors, and none exactly when
    the account is enabled, has a refresh token, and the token refresh and
    both quota fetches were fulfilled. *)
Theorem pipeline_errors (up : Upstream) (account : Account.t) (index : nat)
    (res : Result.t) :
  snd (getAntigravityAccountQuota up account index) = Normal res ->
  (length (Result.errors res) <= 2)%nat /\
  (Result.errors res = [] <->
   Account.enabled account <> Some false /\
   exists refreshToken accessToken models buckets,
     truthy_string (Account.refreshToken account) = Some refreshToken /\
     refreshAccessToken up refreshToken = Fulfilled accessToken /\
     fetchAntigravityModels up accessToken (Account.projectId account)
     = Fulfilled models /\
     fetchGeminiCliQuota up accessToken (Account.projectId account)
     = Fulfilled buckets).
Proof.
  destruct (pipeline_cases up account index)
    as [[He ->]|[(He & Ht & ->)|[(rt & msg & He & Ht & Hr & ->)
                                 |(rt & tok & He & Ht & Hr & ->)]]]; simpl.
  - intros [= <-]. simpl. split; [lia|]. split; [done|]. by intros [? _].
  - intros [= <-]. simpl. split; [lia|]. split; [done|].
    intros (_ & rt & ? & ? & ? & Ht' & _). congruence.
  - intros [= <-]. simpl. split; [lia|]. split; [done|].
    intros (_ & rt' & ? & ? & ? & Ht' & Hr' & _). congruence.
  - intros Hres.
    apply bind_Normal in Hres as (ms & _ & Hres).
    apply bind_Normal in Hres as (bs & _ & [= <-]). simpl.
    destruct (fetchAntigravityModels up tok _) as [v1|m1] eqn:H1,
             (fetchGeminiCliQuota up tok _) as [v2|m2] eqn:H2; simpl;
      (split; [lia|]).
    + split; [|done]. intros _. split; [done|]. by exists rt, tok, v1, v2.
    + split; [done|]. intros (_ & rt' & tok' & ? & ? & Ht' & Hr' & _ & H2').
      congruence.
    + split; [done|]. intros (_ & rt' & tok' & ? & ? & Ht' & Hr' & H1' & _).
      congruence.
    + split; [done|]. intros (_ & rt' & tok' & ? & ? & Ht' & Hr' & H1' & _).
      congruence.
Qed.

Lemma pipeline_errors_witness :
  exists res,
    snd (getAntigravityAccountQuota upstream_healthy bob 1) = Normal res /\
    (length (Result.errors res) <= 2)%nat.
Proof.
  eexists. split; [reflexivity|].
  exact (proj1 (pipeline_errors upstream_healthy bob 1 _ eq_refl)).
Defined.

(** X6.  The stages of the pipeline, on every account: a disabled account,
    a missing refresh token and a failed refresh each end it with that one
    error, empty lists and no further call; once the token is there, a
    rejected models fetch leaves [antigravity_models] empty and records its
    error while the quota list is the parsed quota payload, and a models
    payload that parses is kept whatever the quota fetch does. *)
Theorem pipeline_stages (up : Upstream) (account : Account.t) (index : nat) :
  (Account.enabled account = Some false ->
   getAntigravityAccountQuota up account index
   = ([], Normal (result_header account index [] [] ["Account is disabled"]))) /\
  (Account.enabled account <> Some false ->
   truthy_string (Account.refreshToken account) = None ->
   getAntigravityAccountQuota up account index
   = ([], Normal (result_header account index [] []
                    ["No refresh token stored for this account"]))) /\
  (forall refreshToken message,
     Account.enabled account <> Some false ->
     truthy_string (Account.refreshToken account) = Some refreshToken ->
     refreshAccessToken up refreshToken = Rejected message ->
     getAntigravityAccountQuota up account index
     = ([CallRefresh refreshToken],
        Normal (result_header account index [] []
                  ["Token refresh failed: " +:+ message]))) /\
  (forall refreshToken accessToken message,
     Account.enabled account <> Some false ->
     truthy_string (Account.refreshToken account) = Some refreshToken ->
     refreshAccessToken up refreshToken = Fulfilled accessToken ->
     fetchAntigravityModels up accessToken (Account.projectId account)
     = Rejected message ->
     exists buckets,
       buckets_field (fetchGeminiCliQuota up accessToken (Account.projectId account))
       = Normal buckets /\
       snd (getAntigravityAccountQuota up account index)
       = Normal (result_header account index [] buckets
                   (["Antigravity models: " +:+ message]
                    ++ fetch_error "Gemini CLI quota: "
                         (fetchGeminiCliQuota up accessToken
                            (Account.projectId account))))) /\
  (forall refreshToken accessToken payload models,
     Account.enabled account <> Some false ->
     truthy_string (Account.refreshToken account) = Some refreshToken ->
     refreshAccessToken up refreshToken = Fulfilled accessToken ->
     fetchAntigravityModels up accessToken (Account.projectId account)
     = Fulfilled payload ->
     parseAntigravityModels payload = Normal models ->
     exists buckets,
       buckets_field (fetchGeminiCliQuota up accessToken (Account.projectId account))
       = Normal buckets /\
       snd (getAntigravityAccountQuota up account index)
       = Normal (result_header account index models buckets
                   (fetch_error "Gemini CLI quota: "
                      (fetchGeminiCliQuota up accessToken
                         (Account.projectId account))))).
Proof.
  assert (forall gc, exists buckets, buckets_field gc = Normal buckets) as Hgc.
  { intros [v|m]; simpl; [|by eexists].
    pose proof (parseGeminiCliQuota_returns v) as Hv.
    destruct (parseGeminiCliQuota v); [by eexists | done]. }
  split; [apply pipeline_disabled|]. split; [apply pipeline_no_refresh_token|].
  split; [intros; by apply pipeline_refresh_failed|]. split.
  - intros rt tok msg He Ht Hr H1.
    destruct (Hgc (fetchGeminiCliQuota up tok (Account.projectId account)))
      as [buckets Hb].
    exists buckets. split; [done|].
    rewrite (pipeline_fetches up account index rt tok He Ht Hr). simpl.
    rewrite H1, Hb. done.
  - intros rt tok payload models He Ht Hr H1 Hp.
    destruct (Hgc (fetchGeminiCliQuota up tok (Account.projectId account)))
      as [buckets Hb].
    exists buckets. split; [done|].
    rewrite (pipeline_fetches up account index rt tok He Ht Hr). simpl.
    rewrite H1, Hb. simpl. rewrite Hp. done.
Qed.

Lemma pipeline_stages_witness :
  exists buckets,
    buckets_field (fetchGeminiCliQuota upstream_models_down "ya29.token" None)
    = Normal buckets /\
    snd (getAntigravityAccountQuota upstream_models_down alice 0)
    = Normal (result_header alice 0 [] buckets
                ["Antigravity models: fetchAvailableModels HTTP 503: {}"]).
Proof.
  exact (proj1 (proj2 (proj2 (proj2 (pipeline_stages upstream_models_down alice 0))))
           "1//refresh-a" "ya29.token" "fetchAvailableModels HTTP 503: {}"
           ltac:(discriminate) eq_refl eq_refl eq_refl).
Defined.

(** ** Aggregation over all accounts *)

Lemma pipeline_calls_length (up : Upstream) (account : Account.t) (index : nat) :
  (length (fst (getAntigravityAccountQuota up account index))
   <= if decide (Account.enabled account ≠ Some false) then 3 else 0)%nat.
Proof.
  destruct (pipeline_cases up account index)
    as [[He ->]|[(He & Ht & ->)|[(rt & msg & He & Ht & Hr & ->)
                                 |(rt & tok & He & Ht & Hr & ->)]]]; simpl.
  - rewrite decide_False; [lia|]. by intros Hn.
  - rewrite decide_True by done. lia.
  - rewrite decide_True by done. lia.
  - rewrite decide_True by done. lia.
Qed.

Lemma map_pipelines_calls_length (net : nat -> Upstream) (file : list Account.t) :
  forall n,
  (length (mjoin (fst <$> map_pipelines net n file))
   <= 3 * length (filter (fun a => Account.enabled a ≠ Some false) file))%nat.
Proof.
  induction file as [|acc rest IH]; intros n.
  { rewrite filter_nil. simpl. lia. }
  cbn [map_pipelines]. rewrite fmap_cons.
  change (mjoin (?x :: ?l)) with (x ++ mjoin l). rewrite length_app, filter_cons.
  pose proof (pipeline_calls_length (net n) acc n) as Hc. specialize (IH (S n)).
  destruct (decide (Account.enabled acc ≠ Some false)); simpl length in *; lia.
Qed.

(** X7.  One [getAll] makes at most three outbound calls for each account
    that is not disabled, and none for the others (nor on an empty
    store). *)
Theorem getAll_call_budget (net : nat -> Upstream) (file : list Account.t) :
  (length (getAntigravityQuotaAll_calls net file)
   <= 3 * length (filter (fun a => Account.enabled a ≠ Some false) file))%nat.
Proof.
  unfold getAntigravityQuotaAll_calls, loadAccounts.
  destruct (bool_decide (length file = 0%nat)); [simpl; lia|].
  apply map_pipelines_calls_length.
Qed.





Lemma positive_pct_positive (key : string) (os : list (string * option Z)) (p : Z) :
  p ∈ os ≫= positive_pct key -> (0 < p)%Z.
Proof.
  intros Hin. apply list_elem_of_bind in Hin as (o & Hin & _).
  unfold positive_pct in Hin. destruct (o.2) as [q|]; [|by apply elem_of_nil in Hin].
  destruct (bool_decide (o.1 = key) && (0 <? q)%Z) eqn:Hq;
    [|by apply elem_of_nil in Hin].
  apply list_elem_of_singleton in Hin as ->.
  apply andb_prop in Hq as [_ Hq]. by apply Z.ltb_lt in Hq.
Qed.

(** X9.  [-1] is a sentinel: in the summary of any account results, an
    entry has [best_remaining_pct = -1] exactly when its
    [accounts_available] is 0, and a percentage above zero otherwise. *)
Theorem summary_sentinel (results : list Result.t) (key : string)
    (entry : Summary.t) :
  build_summary results !! key = Some entry ->
  (Summary.accounts_available entry = 0%nat /\
   Summary.best_remaining_pct entry = (-1)%Z) \/
  ((0 < Summary.accounts_available entry)%nat /\
   (0 < Summary.best_remaining_pct entry)%Z).
Proof.
  rewrite build_summary_steps, summary_steps_lookup, lookup_empty.
  destruct (bool_decide (key ∈ Object_prototype_names)); [done|].
  destruct (bool_decide (key ∈ (observations results).*1)); [|done].
  intros [= <-]. unfold raised. simpl.
  pose proof (positive_pct_positive key (observations results)) as Hpos.
  destruct (observations results ≫= positive_pct key) as [|p rest]; [by left|].
  right. split; [simpl; lia|].
  destruct (foldl_max_spec (p :: rest) (-1)) as (_ & Hall & _).
  specialize (Hall p (list_elem_of_here _ _)).
  specialize (Hpos p (list_elem_of_here _ _)). lia.
Qed.

Lemma summary_sentinel_witness :
  (Summary.accounts_available (Summary.mk (-1) 0) = 0%nat /\
   Summary.best_remaining_pct (Summary.mk (-1) 0) = (-1)%Z) \/
  ((0 < Summary.accounts_available (Summary.mk (-1) 0))%nat /\
   (0 < Summary.best_remaining_pct (Summary.mk (-1) 0))%Z).
Proof.
  apply (summary_sentinel
           [result_header alice 0 [Model.mk "m" None (Some 0%Z) None] [] []] "m").
  vm_compute. reflexivity.
Defined.




(** X11.  [getOne] by position and [getAll] run the same pipeline: against
    the same answers, the result [getOne] returns for position [i] is the
    [i]-th result of [getAll]. *)
Theorem getOne_matches_getAll (net : nat -> Upstream) (file : list Account.t)
    (r : All.t) (i : nat) (res : Result.t) :
  getAntigravityQuotaAll net file = Normal r ->
  All.accounts r !! i = Some res ->
  snd (getAntigravityQuotaSingle (net i) file (IdNumber (inject_Z (Z.of_nat i))))
  = Normal res.
Proof.
  intros Hr Hi. apply getAll_Normal in Hr as (_ & Hps & _).
  apply (f_equal (fun l => l !! i)) in Hps.
  rewrite !list_lookup_fmap, map_pipelines_lookup, Hi in Hps. simpl in Hps.
  destruct (file !! i) as [account|] eqn:Hf; [|done]. simpl in Hps.
  injection Hps as Hp.
  by rewrite (getOne_at (net i) file _ (inject_Z (Z.of_nat i)) i account).
Qed.

Lemma getOne_matches_getAll_witness :
  exists res,
    snd (getAntigravityQuotaSingle upstream_healthy [alice; bob] (IdNumber 1))
    = Normal res /\ Result.email res = "Bob@Example.com".
Proof.
  eexists. split.
  - exact (getOne_matches_getAll (fun _ => upstream_healthy) [alice; bob] _ 1 _
             eq_refl eq_refl).
  - reflexivity.
Defined.




(** ** A single account by identifier *)

Lemma all_digits_string_of_uint (d : Decimal.uint) :
  all_digits (NilEmpty.string_of_uint d) = true.
Proof. induction d; simpl; auto. Qed.

Ltac eval_digit :=
  repeat match goal with
         | |- context [Z.of_nat (nat_of_ascii ?c)] =>
             let v := eval vm_compute in (Z.of_nat (nat_of_ascii c)) in
             change (Z.of_nat (nat_of_ascii c)) with v
         end.

Lemma digits_value_string_of_uint (d : Decimal.uint) :
  forall acc : Z,
  (0 <= acc)%Z ->
  digits_value (NilEmpty.string_of_uint d) acc
  = Z.of_nat (Nat.of_uint_acc d (Z.to_nat acc)).
Proof.
  induction d as [|d IH|d IH|d IH|d IH|d IH|d IH|d IH|d IH|d IH|d IH];
    intros acc Hacc;
    [simpl; lia | ..];
    cbn [NilEmpty.string_of_uint digits_value Nat.of_uint_acc]; eval_digit;
    rewrite IH by lia; rewrite Nat.tail_mul_spec; f_equal; f_equal; lia.
Qed.

Lemma index_key_digits (i : nat) :
  NUMERIC_STRING_REGEX_test (index_key i) = true /\
  Number_of_digits (index_key i) = Z.of_nat i.
Proof.
  unfold index_key, NUMERIC_STRING_REGEX_test, Number_of_digits.
  pose proof (DecimalNat.Unsigned.of_to i) as Hi. unfold Nat.of_uint in Hi.
  destruct (Nat.to_uint i) as [|d|d|d|d|d|d|d|d|d|d] eqn:Hd;
    [simpl in *; eval_digit; split; [done | lia] | ..];
    (split;
     [cbn [NilZero.string_of_uint]; rewrite all_digits_string_of_uint; done
     |cbn [NilZero.string_of_uint];
      rewrite digits_value_string_of_uint by lia;
      change (Z.to_nat 0) with 0%nat; by rewrite Hi]).
Qed.

(** X13.  Writing a position in decimal and passing it as a string is the
    same as passing the number: for every [i], [getOne(String(i))] and
    [getOne(i)] give the same outcome and make the same calls. *)
Theorem getOne_decimal_string (up : Upstream) (file : list Account.t) (i : nat) :
  getAntigravityQuotaSingle up file (IdString (index_key i))
  = getAntigravityQuotaSingle up file (IdNumber (inject_Z (Z.of_nat i))).
Proof.
  destruct (index_key_digits i) as [Ht Hv].
  unfold getAntigravityQuotaSingle, resolve_index. by rewrite Ht, Hv.
Qed.








(** X15.  A number inside [0, length) that is not an integer passes the
    range check and then finds no account: [getOne] fails with
    account-at-index-not-found, without any outbound call. *)
Theorem getOne_fractional_index (up : Upstream) (file : list Account.t) (index : Q) :
  (0 <= index)%Q -> (index < inject_Z (Z.of_nat (length file)))%Q ->
  (forall z, ~ (index == inject_Z z)%Q) ->
  getAntigravityQuotaSingle up file (IdNumber index)
  = ([], Throw (AccountAtIndexNotFound index)).
Proof.
  intros H0 Hlt Hfrac. unfold getAntigravityQuotaSingle, loadAccounts.
  assert (file <> []) as Hne.
  { intros ->. simpl in Hlt. apply (Qlt_not_le _ _ Hlt H0). }
  rewrite bool_decide_eq_false_2 by (by destruct file). simpl.
  assert (Qltb index 0 = false) as ->.
  { unfold Qltb. by apply negb_false_iff, Qle_bool_iff. }
  assert (Qle_bool (inject_Z (Z.of_nat (length file))) index = false) as ->.
  { apply not_true_is_false. rewrite Qle_bool_iff. by apply Qlt_not_le. }
  simpl. unfold array_get.
  destruct ((Z.pos (Qden (Qred index)) =? 1)%Z && (0 <=? Qnum (Qred index))%Z)
    eqn:Hint; [|done].
  exfalso. apply andb_prop in Hint as [Hden _]. apply Z.eqb_eq in Hden.
  apply (Hfrac (Qnum (Qred index))).
  rewrite <- (Qred_correct index) at 1.
  destruct (Qred index) as [num den]. simpl in *.
  unfold Qeq. simpl. injection Hden as ->. lia.
Qed.

Lemma getOne_fractional_index_witness :
  getAntigravityQuotaSingle upstream_healthy [alice; bob] (IdNumber (3 # 2))
  = ([], Throw (AccountAtIndexNotFound (3 # 2))).
Proof.
  apply getOne_fractional_index.
  - unfold Qle. simpl. lia.
  - unfold Qlt. simpl. lia.
  - intros z. unfold Qeq. simpl. lia.
Defined.

Lemma array_get_Some {A} (l : list A) (index : Q) (i : nat) (a : A) :
  array_get l index = Some (i, a) -> l !! i = Some a.
Proof.
  unfold array_get. destruct (_ && _); [|done].
  destruct (l !! Z.to_nat (Qnum (Qred index))) as [x|] eqn:Hx; [|done].
  simpl. by intros [= <- <-].
Qed.

(** X16.  Whatever the identifier, a result that [getOne] returns belongs
    to an account of the store: its [account_index] is a position of the
    store, and its email, project and enabled flag are those of the account
    at that position. *)
Theorem getOne_result_in_store (up : Upstream) (file : list Account.t)
    (identifier : identifier) (res : Result.t) :
  snd (getAntigravityQuotaSingle up file identifier) = Normal res ->
  exists account,
    file !! Result.account_index res = Some account /\
    Result.email res
    = default (account_label (Result.account_index res))
        (truthy_string (Account.email account)) /\
    Result.projectId res = truthy_string (Account.projectId account) /\
    Result.enabled res = negb (bool_decide (Account.enabled account = Some false)).
Proof.
  unfold getAntigravityQuotaSingle, loadAccounts.
  destruct (bool_decide (length file = 0%nat)); [done|]. simpl.
  destruct (resolve_index file identifier) as [index|e]; [|done]. simpl.
  destruct (_ || _); [done|].
  destruct (array_get file index) as [[i account]|] eqn:Hget; [|done].
  apply array_get_Some in Hget. intros Hres.
  apply pipeline_header in Hres as (ms & bs & es & -> & _).
  exists account. by repeat split.
Qed.

Lemma getOne_result_in_store_witness :
  exists account,
    [alice; bob] !! 1%nat = Some account /\ Account.email account = Some "Bob@Example.com".
Proof.
  destruct (getOne_result_in_store upstream_healthy [alice; bob]
              (IdString "bob@example.com") _ eq_refl) as (account & Hacc & _).
  exists account. split; [exact Hacc|].
  simpl in Hacc. injection Hacc as <-. reflexivity.
Defined.

(** ** Validation of [hours] and the usage tools *)

Lemma validateHours_positive `{Runtime} (hours : option JSON) (h : Q) :
  validateHours hours = Normal h -> (0 < h)%Q.
Proof.
  unfold validateHours. destruct hours as [v|]; [|by intros [= <-]].
  destruct (finite_positive (Number (Some v))) as [q|] eqn:Hq; [|done].
  intros [= <-]. by apply finite_positive_Some in Hq as [_ ?].
Qed.

Lemma validateHours_again `{Runtime} (h : Q) :
  (0 < h)%Q -> validateHours (Some (JNum h)) = Normal h.
Proof.
  intros Hh. unfold validateHours.
  by rewrite (proj2 (finite_positive_Some (Number (Some (JNum h))) h)).
Qed.

Lemma validateHours_js_positive `{Runtime} (hours : option JSON) :
  (0 < validateHours_js hours)%Q.
Proof.
  unfold validateHours_js.
  destruct (finite_positive (Number hours)) as [q|] eqn:Hq; [|done].
  by apply finite_positive_Some in Hq as [_ ?].
Qed.

(** X17.  No usage call is ever made with a window that is not above zero:
    this holds for the calls of [get_model_usage], [get_tool_usage] and
    [get_usage] in the modular server, whatever [hours] is, and for the
    single-file server's [get_model_usage]. *)
Theorem usage_calls_have_positive_window `{Runtime} (client : UsageClient)
    (hours : option JSON) (c : usage_call) :
  c ∈ fst (getModelUsage client hours) ++ fst (getToolUsage client hours)
      ++ fst (getFullUsage client hours) ++ fst (js_get_model_usage client hours) ->
  positive_window c.
Proof.
  unfold getModelUsage, getToolUsage, getFullUsage, js_get_model_usage.
  pose proof (validateHours_js_positive hours) as Hjs.
  destruct (validateHours hours) as [h|e] eqn:Hv; simpl.
  - pose proof (validateHours_positive hours h Hv) as Hh.
    unfold getModelUsage, getToolUsage. rewrite (validateHours_again h Hh). simpl.
    intros Hin.
    repeat (apply elem_of_cons in Hin as [->|Hin]; [done|]).
    by apply elem_of_nil in Hin.
  - intros Hin. apply list_elem_of_singleton in Hin as ->. done.
Qed.

(** X18.  [get_usage] is all or nothing: with valid [hours] it starts the
    three calls, each usage call with the validated hours (the second
    validation inside the two usage tools never fails); it returns the
    three results together when all three are fulfilled, and rejects as
    soon as one of them is rejected. *)
Theorem getFullUsage_all_or_nothing `{Runtime} (client : UsageClient)
    (hours : option JSON) (h : Q) :
  validateHours hours = Normal h ->
  fst (getFullUsage client hours)
  = [CallFetchQuota; CallFetchModelUsage h; CallFetchToolUsage h] /\
  (forall quota model_usage tool_usage,
     fetchQuota client = Fulfilled quota ->
     fetchModelUsage client h = Fulfilled model_usage ->
     fetchToolUsage client h = Fulfilled tool_usage ->
     snd (getFullUsage client hours)
     = Normal (JObj [("quota", quota); ("model_usage", model_usage);
                     ("tool_usage", tool_usage)])) /\
  (returns (snd (getFullUsage client hours)) = true <->
   exists quota model_usage tool_usage,
     fetchQuota client = Fulfilled quota /\
     fetchModelUsage client h = Fulfilled model_usage /\
     fetchToolUsage client h = Fulfilled tool_usage).
Proof.
  intros Hv. pose proof (validateHours_positive hours h Hv) as Hh.
  unfold getFullUsage, getModelUsage, getToolUsage, getQuota.
  rewrite Hv, (validateHours_again h Hh). simpl.
  split; [done|]. split.
  { intros q m t -> -> ->. done. }
  destruct (fetchQuota client) as [q|mq], (fetchModelUsage client h) as [m|mm],
    (fetchToolUsage client h) as [t|mt]; simpl;
    (split; [try done; intros _; by eexists _, _, _
            |try done; intros (? & ? & ? & ? & ? & ?); done]).
Qed.

Lemma usage_calls_have_positive_window_witness :
  positive_window (CallFetchToolUsage 12).
Proof.
  apply (@usage_calls_have_positive_window numbers_only usage_down (Some (JNum 12))).
  apply list_elem_of_In. vm_compute. right. left. reflexivity.
Defined.

Lemma getFullUsage_all_or_nothing_witness :
  fst (@getFullUsage numbers_only usage_down (Some (JNum 12)))
  = [CallFetchQuota; CallFetchModelUsage 12; CallFetchToolUsage 12].
Proof.
  exact (proj1 (@getFullUsage_all_or_nothing numbers_only usage_down
                  (Some (JNum 12)) 12%Q eq_refl)).
Defined.


(** ** Reshaping of the quota answer *)

(** X20.  [fetchQuota] reports one limit for each limit of the answer, in
    order, none when the answer has no [data]; the raw codes
    [TOKENS_LIMIT] and [TIME_LIMIT] never reach the result, and renaming a
    type twice is renaming it once. *)
Theorem quota_limits_renamed (data : option (list Limit.t)) :
  QuotaLimit.type <$> quota_limits data
  = (fun limit => mapQuotaType (Limit.type limit)) <$> default [] data /\
  (forall limit, limit ∈ quota_limits data ->
     QuotaLimit.type limit <> "TOKENS_LIMIT" /\
     QuotaLimit.type limit <> "TIME_LIMIT") /\
  (forall limitType, mapQuotaType (mapQuotaType limitType) = mapQuotaType limitType).
Proof.
  assert (forall t, mapQuotaType t <> "TOKENS_LIMIT" /\ mapQuotaType t <> "TIME_LIMIT")
    as Hraw.
  { intros t. unfold mapQuotaType.
    destruct (String.eqb t "TOKENS_LIMIT") eqn:H1; [by split|].
    destruct (String.eqb t "TIME_LIMIT") eqn:H2; [by split|].
    apply String.eqb_neq in H1, H2. by split. }
  split; [|split].
  - unfold quota_limits. rewrite <- list_fmap_compose. done.
  - intros limit Hin. unfold quota_limits in Hin.
    apply list_elem_of_fmap in Hin as (l & -> & _). simpl. apply Hraw.
  - intros t. destruct (Hraw t) as [H1 H2]. unfold mapQuotaType at 1.
    apply String.eqb_neq in H1, H2. by rewrite H1, H2.
Qed.

(** ** The dispatcher and the registry *)

(** X21.  [handleMessage] rejects for one message only, [null] (reading its
    [id] throws before the [try]); for every other value it returns, a
    failing tool or a missing [params] included. *)
Theorem handleMessage_rejects_only_null
    (tool : option JSON -> JSON -> completion JSON) (msg : JSON) :
  returns (handleMessage tool msg) = negb (is_null msg).
Proof.
  unfold handleMessage.
  destruct msg as [| | | | |props]; try reflexivity. simpl.
  destruct (own_property props "id") as [id|]; [|done].
  by destruct (dispatch tool (JObj props) id).
Qed.



(** X23.  The tool is consulted for [tools/call] only: for a message with
    any other method the answer is the same whatever the tools do. *)
Theorem answer_independent_of_tools
    (tool tool' : option JSON -> JSON -> completion JSON) (msg : JSON) :
  (forall method,
     get_prop msg "method" = Normal method -> is_method method "tools/call" = false) ->
  handleMessage tool msg = handleMessage tool' msg.
Proof.
  intros Hm. unfold handleMessage.
  destruct (get_prop msg "id") as [[id|]|e] eqn:Hid; try done. simpl.
  assert (is_null msg = false) as Hn by (by destruct msg).
  destruct (get_prop_not_null msg "method" Hn) as [method Hmethod].
  specialize (Hm method Hmethod). unfold dispatch. rewrite Hmethod. simpl.
  rewrite Hm. by repeat destruct (is_method method _).
Qed.

Lemma answer_independent_of_tools_witness :
  handleMessage no_tools ping_with_null_id
  = handleMessage (fun _ _ => Normal JNull) ping_with_null_id.
Proof.
  apply answer_independent_of_tools. intros method [= <-]. reflexivity.
Defined.

Section RegistryProperties.
Context {R : Type}.
Variable tool_get_usage : option JSON -> completion R.
Variable tool_get_quota : completion R.
Variable tool_get_model_usage : option JSON -> completion R.
Variable tool_get_tool_usage : option JSON -> completion R.
Variable tool_get_antigravity_quota : completion R.
Variable tool_get_antigravity_account_quota : option JSON -> completion R.


End RegistryProperties.


Section TwoServers.
Context `{Runtime}.
Variable tool_get_usage : option JSON -> completion JSON.
Variable tool_get_quota : completion JSON.
Variable tool_get_model_usage : option JSON -> completion JSON.
Variable tool_get_tool_usage : option JSON -> completion JSON.
Variable tool_get_antigravity_quota : completion JSON.
Variable tool_get_antigravity_account_quota : option JSON -> completion JSON.
Variable js_getFullUsage : Q -> completion JSON.
Variable js_getQuota : completion JSON.
Variable js_getModelUsage : Q -> completion JSON.
Variable js_getToolUsage : Q -> completion JSON.
Variable js_getAntigravityQuotaAll : completion JSON.
Variable js_getAntigravityQuotaSingle : option JSON -> completion JSON.



End TwoServers.



(** ** The transport loop, continued *)

Section TransportFurther.
Variable tool : option JSON -> JSON -> completion JSON.



Lemma output_from_mono (seen seen' : list event) (s : State) :
  (forall ev, ev ∈ seen -> ev ∈ seen') -> output_from tool seen s -> output_from tool seen' s.
Proof.
  intros Hsub [Hout Hpend]. split.
  - intros e He. destruct (Hout e He) as [[-> Hm]|(msg & Hm & Hh)].
    + left. auto.
    + right. exists msg. auto.
  - intros msg Hm. auto.
Qed.

Lemma stdout_checkExit (s : State) : stdout (checkExit s) = stdout s.
Proof. unfold checkExit. by destruct (stdinClosed s && _). Qed.

Lemma awaiting_checkExit (s : State) : awaiting (checkExit s) = awaiting s.
Proof. unfold checkExit. by destruct (stdinClosed s && _). Qed.

Lemma pendingRequests_checkExit (s : State) :
  pendingRequests (checkExit s) = pendingRequests s.
Proof. unfold checkExit. by destruct (stdinClosed s && _). Qed.

Lemma stdinClosed_checkExit (s : State) : stdinClosed (checkExit s) = stdinClosed s.
Proof. unfold checkExit. by destruct (stdinClosed s && _). Qed.

Lemma step_output_from (seen : list event) (s : State) (ev : event) :
  output_from tool seen s -> output_from tool (seen ++ [ev]) (step tool s ev).
Proof.
  intros Hs.
  assert (ev ∈ seen ++ [ev]) as Hev.
  { apply elem_of_app. right. apply list_elem_of_here. }
  assert (output_from tool (seen ++ [ev]) s) as [Hout Hpend].
  { eapply output_from_mono; [|exact Hs]. intros x Hx. apply elem_of_app. by left. }
  unfold step. destruct (exited s) eqn:Hx; [by split|].
  destruct ev as [[| |m]|k|].
  - by split.
  - split; [|done]. simpl. intros e [He|He]%elem_of_app; [by apply Hout|].
    apply list_elem_of_singleton in He as ->. by left.
  - split; [done|]. simpl. intros msg [Hm|Hm]%elem_of_app; [by apply Hpend|].
    by apply list_elem_of_singleton in Hm as ->.
  - unfold on_settled. destruct (awaiting s !! k) as [m|] eqn:Hk; [|by split].
    split.
    + rewrite stdout_checkExit. simpl. intros e He.
      destruct (handleMessage tool m) as [[response|]|err] eqn:Hh; simpl in He;
        [|by apply Hout|by apply Hout].
      apply elem_of_app in He as [He|He]; [by apply Hout|].
      apply list_elem_of_singleton in He as ->. right. exists m. split; [|done].
      apply Hpend. by eapply list_elem_of_lookup_2.
    + rewrite awaiting_checkExit. simpl. intros msg Hm. apply Hpend.
      assert (msg ∈ delete k (awaiting s)) as Hd.
      { by destruct (handleMessage tool m) as [[response|]|err]. }
      by eapply list_elem_of_delete_inv.
  - unfold on_close. split.
    + by rewrite stdout_checkExit.
    + by rewrite awaiting_checkExit.
Qed.

Lemma run_output_from (evs : list event) :
  forall (seen : list event) (s : State),
  output_from tool seen s -> output_from tool (seen ++ evs) (foldl (step tool) s evs).
Proof.
  induction evs as [|ev rest IH]; intros seen s Hs; simpl.
  - by rewrite app_nil_r.
  - replace (seen ++ ev :: rest) with ((seen ++ [ev]) ++ rest)
      by (by rewrite <- app_assoc).
    apply IH. by apply step_output_from.
Qed.

(** X28.  Nothing unsolicited is written: every envelope on the output is
    either the parse-error envelope, after a malformed line, or the answer
    of [handleMessage] to a message that arrived on a line of the input. *)
Theorem no_unsolicited_output (evs : list event) (e : Envelope.t) :
  e ∈ stdout (run tool evs) ->
  (e = parse_error_envelope /\ OnLine Malformed ∈ evs) \/
  exists msg,
    OnLine (Parsed msg) ∈ evs /\ handleMessage tool msg = Normal (Some e).
Proof.
  assert (output_from tool [] initial) as Hi.
  { split; intros x Hx; by apply elem_of_nil in Hx. }
  destruct (run_output_from evs [] initial Hi) as [Hout _]. apply Hout.
Qed.

(** X29.  Notifications are silent: when no line of the input is malformed
    and no message on it has an [id], nothing at all is written, whatever
    the methods are and whatever the tools do. *)
Theorem notifications_are_silent (evs : list event) :
  OnLine Malformed ∉ evs ->
  (forall msg, OnLine (Parsed msg) ∈ evs -> get_prop msg "id" = Normal None) ->
  stdout (run tool evs) = [].
Proof.
  intros Hmal Hnote.
  assert (output_from tool [] initial) as Hi.
  { split; intros x Hx; by apply elem_of_nil in Hx. }
  destruct (run_output_from evs [] initial Hi) as [Hout _].
  destruct (stdout (run tool evs)) as [|e rest] eqn:Hs; [done|]. exfalso.
  destruct (Hout e) as [[_ Hm]|(msg & Hm & Hh)].
  - unfold run in Hs. rewrite Hs. apply list_elem_of_here.
  - done.
  - specialize (Hnote msg Hm). unfold handleMessage in Hh. by rewrite Hnote in Hh.
Qed.

Lemma drain (n : nat) :
  forall s : State,
  consistent s -> stdinClosed s = true -> pendingRequests s = n ->
  exited (foldl (step tool) s (replicate n (OnSettled 0))) = true.
Proof.
  induction n as [|n IH]; intros s [He Hp] Hc Hn; simpl.
  - by rewrite He, Hc, Hn.
  - assert (consistent (step tool s (OnSettled 0))) as Hcons
      by (by apply step_consistent).
    apply IH; [done| |].
    + unfold step. destruct (exited s); [done|]. unfold on_settled.
      destruct (awaiting s !! 0%nat) as [m|]; [|done].
      rewrite stdinClosed_checkExit. simpl.
      by destruct (handleMessage tool m) as [[response|]|err].
    + assert (exited s = false) as Hx.
      { rewrite He, Hc, Hn. done. }
      unfold step. rewrite Hx. unfold on_settled.
      destruct (awaiting s !! 0%nat) as [m|] eqn:Hk.
      * rewrite pendingRequests_checkExit. simpl.
        destruct (handleMessage tool m) as [[response|]|err]; simpl; by rewrite Hn.
      * exfalso. apply lookup_ge_None in Hk. lia.
Qed.

(** X30.  After the input has closed, the process exits as soon as the
    pending calls have settled: settling as many calls as are pending
    always ends in the exited state. *)
Theorem exits_once_drained (evs : list event) :
  stdinClosed (run tool evs) = true ->
  exited (run tool (evs ++ replicate (pendingRequests (run tool evs)) (OnSettled 0)))
  = true.
Proof.
  intros Hc. unfold run at 1. rewrite foldl_app.
  apply drain; [apply run_consistent | done | done].
Qed.
End TransportFurther.

Lemma no_unsolicited_output_witness :
  (makeResponse JNull EmptyResult = parse_error_envelope /\
   OnLine Malformed ∈ [OnLine (Parsed ping_with_null_id); OnSettled 0]) \/
  exists msg,
    OnLine (Parsed msg) ∈ [OnLine (Parsed ping_with_null_id); OnSettled 0] /\
    handleMessage no_tools msg = Normal (Some (makeResponse JNull EmptyResult)).
Proof.
  apply (no_unsolicited_output no_tools
           [OnLine (Parsed ping_with_null_id); OnSettled 0]).
  apply list_elem_of_here.
Defined.

Lemma notifications_are_silent_witness :
  stdout (run no_tools [OnLine (Parsed ping_notification); OnLine Blank;
                        OnSettled 0; OnClose]) = [].
Proof.
  apply notifications_are_silent.
  - intros Hin.
    repeat (apply elem_of_cons in Hin as [Hin|Hin]; [discriminate Hin|]).
    by apply elem_of_nil in Hin.
  - intros msg Hin.
    apply elem_of_cons in Hin as [Hin|Hin]; [by injection Hin as ->|].
    repeat (apply elem_of_cons in Hin as [Hin|Hin]; [discriminate Hin|]).
    by apply elem_of_nil in Hin.
Defined.

Lemma exits_once_drained_witness :
  exited (run no_tools
            ([OnLine (Parsed call_with_id); OnLine (Parsed ping_notification); OnClose]
             ++ replicate
                  (pendingRequests
                     (run no_tools [OnLine (Parsed call_with_id);
                                    OnLine (Parsed ping_notification); OnClose]))
                  (OnSettled 0)))
  = true.
Proof. apply exits_once_drained. reflexivity. Defined.
